(** * pgat: the sqlx-runner transaction wrapper, execution gateway and
      script splitter

    A shallow embedding of [sqlx-runner/tx.go] and [sqlx-runner/db.go].

    - The methods of [Tx] become state transformers over the fields of the
      struct and the history of calls made on the embedded [sqlx.Tx].
    - The database driver is a parameter: nothing is assumed about the
      results it gives.
    - [tx.Lock()] / [defer tx.Unlock()] bracket every method, so calls on one
      [Tx] are serialised; the model is the sequential behaviour under that
      lock.  The strict-mode watchdog of [WrapSqlxTx] ([time.AfterFunc]) is a
      timer and is left out. *)

From Stdlib Require Import String Ascii List Arith Bool Lia.
From stdpp Require Import base option list strings gmap.
Import ListNotations.

Local Open Scope string_scope.
Local Open Scope list_scope.
Local Open Scope nat_scope.

(** ** Errors

    [Logger] is the logging collaborator; it lives outside the repository.
    The error value that [Logger.Error(msg, args...)] hands back is kept
    symbolic: it is the call itself, message and arguments. *)

Inductive error : Type :=
| ErrTxRollbacked
| DriverError (msg : string)
| Logger_Error (msg : string) (args : list logarg)
with logarg : Type :=
| ArgString (s : string)
| ArgError (e : error).


(** ** Transactions *)

Module TxModel.

(** const ( txPending = iota; txCommitted; txRollbacked; txErred ) *)
Inductive txState : Type := txPending | txCommitted | txRollbacked | txErred.

Definition txState_eqb (a b : txState) : bool :=
  match a, b with
  | txPending, txPending | txCommitted, txCommitted
  | txRollbacked, txRollbacked | txErred, txErred => true
  | _, _ => false
  end.

Record Tx : Type := mkTx {
  IsRollbacked : bool;
  state : txState;
  stateStack : list txState
}.

Definition with_state (s : txState) (tx : Tx) : Tx :=
  mkTx (IsRollbacked tx) s (stateStack tx).
Definition with_IsRollbacked (b : bool) (tx : Tx) : Tx :=
  mkTx b (state tx) (stateStack tx).
Definition with_stateStack (l : list txState) (tx : Tx) : Tx :=
  mkTx (IsRollbacked tx) (state tx) l.

(** The embedded [sqlx.Tx]: the calls made on it so far, oldest first, each
    with the result the driver gave. *)
Inductive realCall : Type := realCommit | realRollback.
Definition sqlxTx : Type := list (realCall * option error).

Definition succeeded (entry : realCall * option error) : bool :=
  match snd entry with None => true | Some _ => false end.

(** Number of real calls that the driver accepted. *)
Definition successes (h : sqlxTx) : nat := length (List.filter succeeded h).

(** [WrapSqlxTx]: the zero value of every field but the handles. *)
Definition WrapSqlxTx : Tx := mkTx false txPending [].

(** [pushState] *)
Definition pushState (tx : Tx) : Tx :=
  with_state txPending (with_stateStack (stateStack tx ++ [state tx]) tx).

(** [popState] *)
Definition popState (tx : Tx) : Tx :=
  if length (stateStack tx) =? 0 then tx
  else
    let val := List.last (stateStack tx) txPending in
    with_state val (with_stateStack (removelast (stateStack tx)) tx).

(** What a method call leaves behind: it returns, or [log.Fatalf] ends the
    process. *)
Inductive outcome : Type :=
| Return (err : option error) (tx : Tx) (h : sqlxTx)
| Exit (h : sqlxTx).

Section Methods.

(** [dat.Strict] *)
Variable Strict : bool.

(** The driver: the result of a call on the real transaction, given the
    calls made before. *)
Variable driver : sqlxTx -> realCall -> option error.

(** [tx.Tx.Commit()] and [tx.Tx.Rollback()] *)
Definition sqlx_call (c : realCall) (h : sqlxTx) : option error * sqlxTx :=
  let r := driver h c in (r, h ++ [(c, r)]).

(** [Tx.Begin], on the fields of the receiver; the boolean tells whether the
    receiver is returned (or nil). *)
Definition Tx_Begin (tx : Tx) : bool * option error * Tx :=
  if IsRollbacked tx then (false, Some ErrTxRollbacked, tx)
  else (true, None, pushState tx).

(** [Tx.Commit] *)
Definition Tx_Commit (tx : Tx) (h : sqlxTx) : option error * Tx * sqlxTx :=
  if IsRollbacked tx then
    (Some (Logger_Error "Cannot commit" [ArgError ErrTxRollbacked]), tx, h)
  else if txState_eqb (state tx) txCommitted then
    (Some (Logger_Error "Transaction has already been commited" []), tx, h)
  else if txState_eqb (state tx) txRollbacked then
    (Some (Logger_Error "Transaction has already been rollbacked" []), tx, h)
  else if length (stateStack tx) =? 0 then
    let '(err, h') := sqlx_call realCommit h in
    match err with
    | Some e => (Some (Logger_Error "commit.error" [ArgError e]), with_state txErred tx, h')
    | None => (None, with_state txCommitted tx, h')
    end
  else (None, with_state txCommitted tx, h).

(** [Tx.Rollback] *)
Definition Tx_Rollback (tx : Tx) (h : sqlxTx) : option error * Tx * sqlxTx :=
  if IsRollbacked tx then
    (Some (Logger_Error "Cannot rollback" [ArgError ErrTxRollbacked]), tx, h)
  else if txState_eqb (state tx) txCommitted then
    (Some (Logger_Error "Cannot rollback, transaction has already been commited" []), tx, h)
  else
    let '(err, h') := sqlx_call realRollback h in
    match err with
    | Some e =>
        (Some (Logger_Error "Unable to rollback" [ArgString "err"; ArgError e]),
         with_state txErred tx, h')
    | None => (None, with_IsRollbacked true (with_state txRollbacked tx), h')
    end.

(** [Tx.AutoCommit] *)
Definition Tx_AutoCommit (tx : Tx) (h : sqlxTx) : outcome :=
  if txState_eqb (state tx) txRollbacked || IsRollbacked tx then
    Return None (popState tx) h
  else
    let '(err, h') := sqlx_call realCommit h in
    match err with
    | Some e =>
        let tx := with_state txErred tx in
        if Strict then Exit h'
        else Return (Some (Logger_Error "transaction.AutoCommit.commit_error" [ArgError e]))
                    (popState tx) h'
    | None => Return None (popState (with_state txCommitted tx)) h'
    end.

(** [Tx.AutoRollback] *)
Definition Tx_AutoRollback (tx : Tx) (h : sqlxTx) : outcome :=
  if IsRollbacked tx || txState_eqb (state tx) txCommitted then
    Return None (popState tx) h
  else
    let '(err, h') := sqlx_call realRollback h in
    match err with
    | Some e =>
        let tx := with_state txErred tx in
        if Strict then Exit h'
        else Return (Some (Logger_Error "transaction.AutoRollback.rollback_error" [ArgError e]))
                    (popState tx) h'
    | None =>
        Return None (popState (with_IsRollbacked true (with_state txRollbacked tx))) h'
    end.

(** *** Sequences of calls on one [Tx] *)

Inductive call : Type := Begin | Commit | Rollback | AutoCommit | AutoRollback.

Definition step (c : call) (tx : Tx) (h : sqlxTx) : outcome :=
  match c with
  | Begin => let '(_, err, tx') := Tx_Begin tx in Return err tx' h
  | Commit => let '(err, tx', h') := Tx_Commit tx h in Return err tx' h'
  | Rollback => let '(err, tx', h') := Tx_Rollback tx h in Return err tx' h'
  | AutoCommit => Tx_AutoCommit tx h
  | AutoRollback => Tx_AutoRollback tx h
  end.

(** The run of a sequence: the errors returned by the calls that returned
    (oldest first), the receiver afterwards ([None] once [log.Fatalf] has
    ended the process: nothing runs after that) and the history of the real
    transaction. *)
Fixpoint run (cs : list call) (tx : Tx) (h : sqlxTx)
  : list (option error) * option Tx * sqlxTx :=
  match cs with
  | [] => ([], Some tx, h)
  | c :: cs' =>
      match step c tx h with
      | Return err tx' h' =>
          let '(errs, end_tx, end_h) := run cs' tx' h' in (err :: errs, end_tx, end_h)
      | Exit h' => ([], None, h')
      end
  end.

(** What a well-scoped run does, from [a]: either it leaves the [Tx] as [b]
    and no real call was accepted, or it leaves the flag set and exactly one
    real call was accepted, or a refused call has ended the process. *)
Definition leaves (a b : Tx) (cs : list call) : Prop :=
  forall h, exists errs end_tx hx,
    run cs a h = (errs, end_tx, h ++ hx) /\
    match end_tx with
    | None => successes hx = 0 /\ 1 <= length hx
    | Some tx' =>
        (tx' = b /\ successes hx = 0) \/ (IsRollbacked tx' = true /\ successes hx = 1)
    end.

(** The receiver is a pointer.  A store maps addresses to the [Tx] values
    they hold; [Begin_at] is [Tx.Begin] called through the address [p], and
    gives back the address it returns (nil is [None]) with the error.  A
    receiver that holds no [Tx] is a nil dereference ([None]). *)
Definition Begin_at (p : nat) (store : gmap nat Tx)
  : option (option nat * option error * gmap nat Tx) :=
  match store !! p with
  | None => None
  | Some tx =>
      let '(same, err, tx') := Tx_Begin tx in
      Some (if same then Some p else None, err, <[p := tx']> store)
  end.

End Methods.

(** What a call answers once the rollback flag is set. *)
Definition after_rollback (c : call) : option error :=
  match c with
  | Begin => Some ErrTxRollbacked
  | Commit => Some (Logger_Error "Cannot commit" [ArgError ErrTxRollbacked])
  | Rollback => Some (Logger_Error "Cannot rollback" [ArgError ErrTxRollbacked])
  | AutoCommit | AutoRollback => None
  end.

(** The nesting depth, counted on the calls and what they returned: a
    [Begin] that returned a handle opens a scope, [AutoCommit] and
    [AutoRollback] close one (if one is open), [Commit] and [Rollback] leave
    the depth alone. *)
Definition depth_step (d : nat) (c : call) (err : option error) : nat :=
  match c, err with
  | Begin, None => S d
  | Begin, Some _ => d
  | AutoCommit, _ | AutoRollback, _ => pred d
  | Commit, _ | Rollback, _ => d
  end.

Fixpoint net_depth (calls : list (call * option error)) (d : nat) : nat :=
  match calls with
  | [] => d
  | (c, err) :: calls' => net_depth calls' (depth_step d c err)
  end.

(** The scope discipline the wrapper is written for: a scope is opened by
    [Begin], holds nested scopes, may call [Commit] or [Rollback], and is
    closed by the deferred [AutoRollback]. *)
Inductive finalizer : list call -> Prop :=
| finalizer_none : finalizer []
| finalizer_Commit : finalizer [Commit]
| finalizer_Rollback : finalizer [Rollback].

Inductive scopes : list call -> Prop :=
| scopes_nil : scopes []
| scopes_cons inner f rest :
    scopes inner -> finalizer f -> scopes rest ->
    scopes (Begin :: inner ++ f ++ AutoRollback :: rest).

(** The calls on the [Tx] that [DB.Begin] hands out: nested scopes, then the
    outermost scope is closed like any other. *)
Definition unit_of_work (cs : list call) : Prop :=
  exists inner f, scopes inner /\ finalizer f /\ cs = inner ++ f ++ [AutoRollback].

(** Drivers to run the model on: one that accepts every call, one that
    refuses every call (the connection is gone), and one that behaves as
    [database/sql] does: once a call has been accepted the transaction is
    done, and every later call is refused. *)
Definition accepting : sqlxTx -> realCall -> option error := fun _ _ => None.
Definition refusing : sqlxTx -> realCall -> option error :=
  fun _ _ => Some (DriverError "driver: bad connection").
Definition done_after_first : sqlxTx -> realCall -> option error :=
  fun h _ => if existsb succeeded h
             then Some (DriverError "sql: transaction has already been committed or rolled back")
             else None.

End TxModel.

(** ** The interpolation safety gate ([db.go]) *)

Module Gate.

(** The process-wide state the gate touches: the package variable
    [standardConformingStrings], and (for counting) how many times the
    setting has been asked of a server. *)
Record process : Type := mkProcess {
  standardConformingStrings : string;
  queries : nat
}.

(** A fresh process: the variable holds the zero value. *)
Definition started : process := mkProcess "" 0.

(** How a call of the gate ends: it returns, [panic(err)] unwinds (after
    [asked] queries in all), or [log.Fatalf] ends the process. *)
Inductive ending : Type :=
| Returns (p : process)
| Panics (err : error) (asked : nat)
| Fatal (p : process).

(** The queries made by the time of the ending. *)
Definition asked_by (e : ending) : nat :=
  match e with
  | Returns p | Fatal p => queries p
  | Panics _ asked => asked
  end.

(** A connection, as far as the gate is concerned: what its server answers
    to [select setting from pg_settings where
    name='standard_conforming_strings'] through [QueryScalar], an error or
    the scalar. *)
Definition DB : Type := error + string.

Section Gate.

(** [dat.EnableInterpolation] *)
Variable EnableInterpolation : bool.

(** [pgMustNotAllowEscapeSequence] *)
Definition pgMustNotAllowEscapeSequence (conn : DB) (p : process) : ending :=
  if negb EnableInterpolation then Returns p
  else
    let queried :=
      if String.eqb (standardConformingStrings p) "" then
        match conn with
        | inl err => inl (err, S (queries p))
        | inr setting => inr (mkProcess setting (S (queries p)))
        end
      else inr p in
    match queried with
    | inl (err, asked) => Panics err asked
    | inr p =>
        if negb (String.eqb (standardConformingStrings p) "on") then Fatal p
        else Returns p
    end.

(** Connections opened one after the other in one process ([NewDB] and
    [NewDBFromSqlx] both start with the gate); a panic aborts the start-up
    and a fatal log ends the process: either ends the sequence. *)
Fixpoint open_all (conns : list DB) (p : process) : ending :=
  match conns with
  | [] => Returns p
  | conn :: conns' =>
      match pgMustNotAllowEscapeSequence conn p with
      | Returns p' => open_all conns' p'
      | stopped => stopped
      end
  end.

End Gate.

End Gate.

(** ** The execution gateway ([db.go]) *)

Module Gateway.

(** [dat.Expression]: SQL text and its arguments.  The struct is declared in
    the builder package; only the two fields [ExecMulti] reads are kept. *)
Record Expression : Type := mkExpression {
  SQL : string;
  Args : list string
}.

Section Queryable.

(** The executor behind [q.runner]: its own state, and what [Exec] does to
    it. *)
Variable database : Type.
Variable runner_Exec : database -> string -> list string -> database * option error.

(** A [Queryable]: the state of its runner and (for the order of
    execution) the statements handed to [runner.Exec] so far. *)
Record Queryable : Type := mkQueryable {
  runner : database;
  executed : list Expression
}.

(** [q.runner.Exec(cmd.SQL, cmd.Args...)] *)
Definition Exec_cmd (cmd : Expression) (q : Queryable) : option error * Queryable :=
  let '(db, err) := runner_Exec (runner q) (SQL cmd) (Args cmd) in
  (err, mkQueryable db (executed q ++ [cmd])).

(** The [for i, cmd := range commands] loop of [ExecMulti], from index [i]:
    the early return, if one is taken. *)
Fixpoint ExecMulti_range (i : nat) (commands : list Expression) (q : Queryable)
  : option (nat * error) * Queryable :=
  match commands with
  | [] => (None, q)
  | cmd :: commands' =>
      let '(err, q') := Exec_cmd cmd q in
      match err with
      | Some e => (Some (i, e), q')
      | None => ExecMulti_range (S i) commands' q'
      end
  end.

(** [Queryable.ExecMulti] *)
Definition ExecMulti (commands : list Expression) (q : Queryable)
  : nat * option error * Queryable :=
  match ExecMulti_range 0 commands q with
  | (Some (i, e), q') => (i, Some e, q')
  | (None, q') => (length commands, None, q')
  end.

(** Statements run one after the other straight on the runner, all of them:
    the results the driver gives and the state it ends in. *)
Fixpoint run_all (commands : list Expression) (db : database)
  : list (option error) * database :=
  match commands with
  | [] => ([], db)
  | cmd :: commands' =>
      let '(db', err) := runner_Exec db (SQL cmd) (Args cmd) in
      let '(errs, db'') := run_all commands' db' in
      (err :: errs, db'')
  end.

End Queryable.

Arguments mkQueryable {database} _ _.
Arguments runner {database} _.
Arguments executed {database} _.

(** A runner to try the model on: it counts the statements it accepted and
    refuses the statement [boom]. *)
Definition counting_Exec (n : nat) (sql : string) (args : list string)
  : nat * option error :=
  if String.eqb sql "boom" then (n, Some (DriverError "pq: syntax error"))
  else (S n, None).

End Gateway.

(** ** The script splitter ([db.go]) *)

Module Splitter.

(** [*regexp.Regexp], through the one method [splitEx] calls:
    [FindAllStringIndex(text, -1)], the (start, end) byte offsets of the
    successive matches. *)
Record Regexp : Type := mkRegexp {
  FindAllStringIndex : string -> list (nat * nat)
}.

(** [text[lo:hi]]; out of range is a run-time panic ([None]). *)
Definition slice (text : string) (lo hi : nat) : option string :=
  if (lo <=? hi) && (hi <=? String.length text)
  then Some (substring lo (hi - lo) text)
  else None.

(** [result[i] = v]; out of range is a run-time panic ([None]). *)
Definition assign (result : list string) (i : nat) (v : string) : option (list string) :=
  if i <? length result then Some (<[i := v]> result) else None.

(** The [for i, element := range indexes] loop of [splitEx], from index
    [i]: [laststart] and [result] when it is over. *)
Fixpoint splitEx_range (text : string) (indexes : list (nat * nat))
    (i laststart : nat) (result : list string) : option (nat * list string) :=
  match indexes with
  | [] => Some (laststart, result)
  | element :: indexes' =>
      match slice text laststart (fst element) with
      | None => None
      | Some seg =>
          match assign result i seg with
          | None => None
          | Some result' => splitEx_range text indexes' (S i) (snd element) result'
          end
      end
  end.

(** [splitEx] *)
Definition splitEx (text : string) (reg : Regexp) : option (list string) :=
  let indexes := FindAllStringIndex reg text in
  let result := replicate (length indexes + 1) EmptyString in
  match splitEx_range text indexes 0 0 result with
  | None => None
  | Some (laststart, result) =>
      match slice text laststart (String.length text) with
      | None => None
      | Some seg => assign result (length indexes) seg
      end
  end.

(** The line feed. *)
Definition LF : ascii := "010"%char.

(** Does [s] start with [GO] followed by the end of the text or of the
    line? *)
Definition GO_then_eol (s : string) : bool :=
  match s with
  | String "G" (String "O" EmptyString) => true
  | String "G" (String "O" (String c _)) => Ascii.eqb c LF
  | _ => false
  end.

(** The matches of a line holding only [GO], scanning [s] from offset
    [pos]; [bol] tells whether [pos] is the beginning of a line. *)
Fixpoint GO_lines (s : string) (pos : nat) (bol : bool) : list (nat * nat) :=
  match s with
  | EmptyString => []
  | String c rest =>
      let later := GO_lines rest (S pos) (Ascii.eqb c LF) in
      if bol && GO_then_eol s then (pos, pos + 2) :: later else later
  end.

(** Modelled from the spec: [reScriptSeparator] is a package variable of
    the runner declared outside [db.go]; it is the separator of
    [ExecScript], a statement-separator token standing alone on its line,
    [GO]. *)
Definition reScriptSeparator : Regexp := mkRegexp (fun text => GO_lines text 0 true).

(** What Go's [regexp] promises of [FindAllStringIndex]: the matches come
    left to right, do not overlap, and lie inside the text of length [n];
    [from] is where the previous match ended. *)
Fixpoint successive (from : nat) (indexes : list (nat * nat)) (n : nat) : Prop :=
  match indexes with
  | [] => from <= n
  | element :: indexes' =>
      from <= fst element /\ fst element <= snd element /\
      successive (snd element) indexes' n
  end.

(** The matched substrings. *)
Definition separators (text : string) (indexes : list (nat * nat)) : list string :=
  map (fun element => substring (fst element) (snd element - fst element) text) indexes.

(** [s0 m0 s1 m1 ... sn]: the segments with the separators put back between
    them. *)
Fixpoint interleave (segments seps : list string) : string :=
  match segments, seps with
  | [], _ => EmptyString
  | s :: segments', [] => String.append s (interleave segments' [])
  | s :: segments', m :: seps' =>
      String.append s (String.append m (interleave segments' seps'))
  end.

(** The splitter as the spec words it: the ordered substrings between the
    successive matches, from offset [from] on: the one before the first
    match, the ones between two matches, the one after the last match. *)
Fixpoint substrings_between (text : string) (from : nat) (indexes : list (nat * nat))
  : list string :=
  match indexes with
  | [] => [substring from (String.length text - from) text]
  | element :: indexes' =>
      substring from (fst element - from) text
      :: substrings_between text (snd element) indexes'
  end.

(** The script of the example: [A;], [GO], [B;], [GO], [C;] on five
    lines. *)
Definition A_GO_B_GO_C : string :=
  String.append "A;" (String LF (String.append "GO" (String LF
    (String.append "B;" (String LF (String.append "GO" (String LF "C;"))))))).

End Splitter.

(** ** The leak watchdog of [WrapSqlxTx] and the states a [Tx] can reach
       ([tx.go]) *)

Module Watchdog.

Import TxModel.

(** The test of the function that [WrapSqlxTx] hands to [time.AfterFunc]
    (in strict mode): it panics, "A database transaction was not closed!",
    when the [Tx] is not rolled back and its state is pending.  The timer is
    left out; the test is a function of the fields at the moment it runs. *)
Definition not_closed (tx : Tx) : bool :=
  negb (IsRollbacked tx) && txState_eqb (state tx) txPending.

(** The state [txRollbacked] never shows without the flag, and is never
    saved on the stack. *)
Definition rollbacked_is_flagged (tx : Tx) : Prop :=
  (state tx = txRollbacked -> IsRollbacked tx = true) /\
  Forall (fun s => s <> txRollbacked) (stateStack tx).

(** The calls that neither push a scope nor commit on their own. *)
Definition closing (c : call) : bool :=
  match c with
  | Commit | Rollback | AutoRollback => true
  | Begin | AutoCommit => false
  end.

(** What a closing call answers on a scope marked committed. *)
Definition after_commit (c : call) : option error :=
  match c with
  | Commit => Some (Logger_Error "Transaction has already been commited" [])
  | Rollback =>
      Some (Logger_Error "Cannot rollback, transaction has already been commited" [])
  | _ => None
  end.

End Watchdog.

(** ** [Exec], [ExecBuilder] and [ExecScript] ([db.go]) *)

Module Statements.

(** The errors these methods return.  [errors.Wrap] is the wrapper of
    [github.com/pkg/errors] and [logSQLError] a function of the runner
    declared outside [db.go]; both are kept symbolic, as the call. *)
Inductive gateway_error : Type :=
| Unwrapped (err : error)
| errors_Wrap (err : error) (message : string)
| logSQLError (err : error) (op : string) (sql : string) (args : list string).

(** [sql.Result], through the one method [Exec] calls: what
    [RowsAffected()] gives, an error or the count. *)
Record sql_Result : Type := mkResult {
  RowsAffected : error + Z
}.

(** [dat.Result] *)
Record dat_Result : Type := mkDatResult {
  Result_RowsAffected : Z
}.

(** A builder, through the one method [ExecBuilder] calls: what
    [Interpolate()] gives, an error or the SQL and its arguments. *)
Definition Builder : Type := error + (string * list string).

Section Exec.

(** The executor behind [q.runner], this time with the result it gives. *)
Variable database : Type.
Variable runner_Exec :
  database -> string -> list string -> database * (error + sql_Result).

(** A [Queryable]: the state of its runner and the statements handed to
    [runner.Exec] so far, oldest first. *)
Record Queryable : Type := mkQueryable {
  runner : database;
  executed : list (string * list string)
}.

(** [q.runner.Exec(sql, args...)] *)
Definition call_Exec (sql : string) (args : list string) (q : Queryable)
  : (error + sql_Result) * Queryable :=
  let '(db, r) := runner_Exec (runner q) sql args in
  (r, mkQueryable db (executed q ++ [(sql, args)])).

(** [Queryable.Exec] *)
Definition Exec (cmd : string) (args : list string) (q : Queryable)
  : option dat_Result * option gateway_error * Queryable :=
  let '(r, q') :=
    if length args =? 0 then call_Exec cmd [] q else call_Exec cmd args q in
  match r with
  | inl err => (None, Some (logSQLError err "Exec" cmd args), q')
  | inr result =>
      match RowsAffected result with
      | inl err => (None, Some (logSQLError err "Exec" cmd args), q')
      | inr rowsAffected => (Some (mkDatResult rowsAffected), None, q')
      end
  end.

(** [Queryable.ExecBuilder] *)
Definition ExecBuilder (b : Builder) (q : Queryable) : option gateway_error * Queryable :=
  match b with
  | inl err => (Some (Unwrapped err), q)
  | inr (sql, args) =>
      let '(r, q') :=
        if length args =? 0 then call_Exec sql [] q else call_Exec sql args q in
      match r with
      | inl err => (Some (logSQLError err "ExecBuilder" sql args), q')
      | inr _ => (None, q')
      end
  end.

End Exec.

Arguments mkQueryable {database} _ _.
Arguments runner {database} _.
Arguments executed {database} _.

Section ExecScript.

Import Gateway.

Variable database : Type.
Variable runner_Exec : database -> string -> list string -> database * option error.

(** The package variable [reScriptSeparator]. *)
Variable reScriptSeparator : Splitter.Regexp.

(** The [for _, sql := range statements] loop of [ExecScript]. *)
Fixpoint ExecScript_range (statements : list string) (args : list string)
    (q : Gateway.Queryable database)
  : option gateway_error * Gateway.Queryable database :=
  match statements with
  | [] => (None, q)
  | sql :: statements' =>
      let '(err, q') := Exec_cmd database runner_Exec (mkExpression sql args) q in
      match err with
      | Some e => (Some (errors_Wrap e (String.append "SQL: " sql)), q')
      | None => ExecScript_range statements' args q'
      end
  end.

(** [Queryable.ExecScript]; [None] is a panic of [splitEx]. *)
Definition ExecScript (script : string) (args : list string)
    (q : Gateway.Queryable database)
  : option (option gateway_error * Gateway.Queryable database) :=
  match Splitter.splitEx script reScriptSeparator with
  | None => None
  | Some statements => Some (ExecScript_range statements args q)
  end.

End ExecScript.

(** Runners to try the model on.  The first accepts everything but the
    statement [boom] and reports one row, or no count at all for the
    statement [notify]. *)
Definition reporting_Exec (n : nat) (sql : string) (args : list string)
  : nat * (error + sql_Result) :=
  if String.eqb sql "boom" then (n, inl (DriverError "pq: syntax error"))
  else if String.eqb sql "notify"
       then (S n, inr (mkResult (inl (DriverError "no RowsAffected available"))))
       else (S n, inr (mkResult (inr 1%Z))).

(** The second refuses the statements that hold no text. *)
Definition refusing_empty_Exec (n : nat) (sql : string) (args : list string)
  : nat * option error :=
  if String.eqb sql "" then (n, Some (DriverError "pq: empty statement")) else (S n, None).

End Statements.

(** ** Opening a connection ([db.go]) *)

Module Connection.

Import Gate.

(** A server, as far as opening goes: what it answers to the question of
    the gate and to [SHOW server_version_num]. *)
Record server : Type := mkServer {
  setting : error + string;
  server_version_num : error + Z
}.

(** [DB], without its handles. *)
Record DB : Type := mkDB {
  Version : Z
}.

(** How [NewDB] ends: with a connection, in the gate (panic or fatal log),
    in [Logger.Fatal] when the version cannot be had (what the logger does
    after the fatal entry is the logger's: the model stops there), or in
    the panic on the driver name.  [probes] counts the version queries
    made. *)
Inductive opening : Type :=
| Connected (conn : DB) (p : process) (probes : nat)
| Gate_stopped (e : ending) (probes : nat)
| Logger_Fatal (msg : string) (p : process) (probes : nat)
| Panic (msg : string) (p : process) (probes : nat).

Section Connection.

(** [dat.EnableInterpolation] *)
Variable EnableInterpolation : bool.

(** [pgMustSetVersion]: the connection with the version the server gives,
    or [None] when the question fails and [Logger.Fatal] is called. *)
Definition pgMustSetVersion (db : server) (conn : DB) : option DB :=
  match server_version_num db with
  | inl _ => None
  | inr v => Some (mkDB v)
  end.

(** [NewDBFromSqlx] *)
Definition NewDBFromSqlx (dbx : server) (p : process) (probes : nat) : opening :=
  let conn := mkDB 0 in
  match pgMustNotAllowEscapeSequence EnableInterpolation (setting dbx) p with
  | Returns p' =>
      match pgMustSetVersion dbx conn with
      | None => Logger_Fatal "Could not query Postgres version" p' (S probes)
      | Some conn => Connected conn p' (S probes)
      end
  | stopped => Gate_stopped stopped probes
  end.

(** [NewDB].  In strict mode it also builds the statement [SET
    client_min_messages to 'DEBUG';] with [conn.SQL], but never hands it to
    [Exec]: nothing is sent. *)
Definition NewDB (db : server) (driverName : string) (p : process) (probes : nat)
  : opening :=
  let conn := mkDB 0 in
  if String.eqb driverName "postgres" then
    match pgMustNotAllowEscapeSequence EnableInterpolation (setting db) p with
    | Returns p' =>
        match pgMustSetVersion db conn with
        | None => Logger_Fatal "Could not query Postgres version" p' (S probes)
        | Some conn => Connected conn p' (S probes)
        end
    | stopped => Gate_stopped stopped probes
    end
  else Panic (String.append "Unsupported driver: " driverName) p probes.

End Connection.

End Connection.

(** ** Struct mapping ([dat/struct_mapping.go]) *)

Module StructMapping.

Section Fields.

(** The values held by the fields of a record. *)
Variable V : Type.

(** [fieldMapper.FieldsByName(record, columns)] for the record at hand: one
    [reflect.Value] for each name, the invalid one ([None]) when no field
    carries the name. *)
Variable FieldsByName : list string -> list (option V).

(** What [valuesFor] returns: the values (an [interface{}] is nil, [None],
    or holds a value), or the error of [fmt.Errorf], kept as the type name
    and the column it is given. *)
Inductive valuesFor_result : Type :=
| Values (values : list (option V))
| Could_not_find_struct_tag (typeName column : string).

(** The [for i, val := range vals] loop of [valuesFor], from index [i];
    [None] is an index out of range. *)
Fixpoint valuesFor_range (typeName : string) (columns : list string)
    (vals : list (option V)) (i : nat) (values : list (option V))
  : option valuesFor_result :=
  match vals with
  | [] => Some (Values values)
  | val :: vals' =>
      match val with
      | None =>
          match columns !! i with
          | Some column => Some (Could_not_find_struct_tag typeName column)
          | None => None
          end
      | Some v =>
          if i <? length values
          then valuesFor_range typeName columns vals' (S i) (<[i := Some v]> values)
          else None
      end
  end.

(** [valuesFor]; [typeName] is [recordType.Name()]. *)
Definition valuesFor (typeName : string) (columns : list string)
  : option valuesFor_result :=
  let vals := FieldsByName columns in
  let values := replicate (length columns) None in
  valuesFor_range typeName columns vals 0 values.

End Fields.

Arguments Values {V} _.
Arguments Could_not_find_struct_tag {V} _ _.

Section Columns.

(** [str.SliceContains], of [github.com/mgutz/str]. *)
Variable SliceContains : list string -> string -> bool.



End Columns.


(** And a record with the fields [id] and [email]. *)
Definition id_and_email (names : list string) : list (option nat) :=
  map (fun name => if String.eqb name "id" then Some 7
                   else if String.eqb name "email" then Some 8 else None) names.

End StructMapping.

(** * Properties of the transaction wrapper *)

Import TxModel.

Section TxFacts.

Variable Strict : bool.
Variable driver : sqlxTx -> realCall -> option error.

(** ** The state stack *)

Lemma popState_empty tx : stateStack tx = [] -> popState tx = tx.
Proof. intros E. unfold popState. now rewrite E. Qed.

Lemma popState_snoc b s l x : popState (mkTx b s (l ++ [x])) = mkTx b x l.
Proof.
  unfold popState, with_state, with_stateStack. simpl.
  rewrite length_app. simpl.
  replace (length l + 1 =? 0) with false by (symmetry; apply Nat.eqb_neq; lia).
  now rewrite last_last, removelast_last.
Qed.

Lemma popState_length tx : length (stateStack (popState tx)) = pred (length (stateStack tx)).
Proof.
  destruct tx as [b s l]. destruct l as [| x l _] using rev_ind.
  - reflexivity.
  - rewrite popState_snoc. simpl. rewrite length_app. simpl. lia.
Qed.

Lemma popState_IsRollbacked tx : IsRollbacked (popState tx) = IsRollbacked tx.
Proof. unfold popState. now destruct (length (stateStack tx) =? 0). Qed.

Lemma pushState_length tx : length (stateStack (pushState tx)) = S (length (stateStack tx)).
Proof. unfold pushState. simpl. rewrite length_app. simpl. lia. Qed.

(** ** Single calls *)

Lemma step_Begin tx h :
  step Strict driver Begin tx h =
  if IsRollbacked tx then Return (Some ErrTxRollbacked) tx h
  else Return None (pushState tx) h.
Proof. unfold step, Tx_Begin. now destruct (IsRollbacked tx). Qed.

(** Once the rollback flag is set, a call touches neither the flag nor the
    real transaction, and answers as [after_rollback] says. *)
Lemma step_after_rollback c tx h :
  IsRollbacked tx = true ->
  exists tx', step Strict driver c tx h = Return (after_rollback c) tx' h
              /\ IsRollbacked tx' = true.
Proof.
  intros F. destruct c; simpl;
    unfold Tx_Begin, Tx_Commit, Tx_Rollback, Tx_AutoCommit, Tx_AutoRollback;
    rewrite F; rewrite ?orb_true_r; simpl; eexists; split; try reflexivity;
    rewrite ?popState_IsRollbacked; assumption.
Qed.

Lemma run_after_rollback cs : forall tx h,
  IsRollbacked tx = true ->
  exists tx', run Strict driver cs tx h = (map after_rollback cs, Some tx', h)
              /\ IsRollbacked tx' = true.
Proof.
  induction cs as [| c cs IH]; intros tx h F; simpl.
  - now exists tx.
  - destruct (step_after_rollback c tx h F) as (tx1 & -> & F1).
    destruct (IH tx1 h F1) as (tx2 & -> & F2). now exists tx2.
Qed.

(** A call makes at most one call on the real transaction. *)
Lemma step_history c tx h :
  match step Strict driver c tx h with
  | Return _ _ h' | Exit h' => h' = h \/ exists entry, h' = h ++ [entry]
  end.
Proof.
  destruct c; simpl;
    unfold Tx_Begin, Tx_Commit, Tx_Rollback, Tx_AutoCommit, Tx_AutoRollback, sqlx_call;
    repeat match goal with
           | |- context [if ?b then _ else _] => destruct b
           | |- context [match ?o with Some _ => _ | None => _ end] => destruct o
           end; simpl; eauto.
Qed.

Lemma run_app cs1 : forall cs2 tx h,
  run Strict driver (cs1 ++ cs2) tx h =
  match run Strict driver cs1 tx h with
  | (errs1, Some tx1, h1) =>
      let '(errs2, end_tx, h2) := run Strict driver cs2 tx1 h1 in
      (errs1 ++ errs2, end_tx, h2)
  | (errs1, None, h1) => (errs1, None, h1)
  end.
Proof.
  induction cs1 as [| c cs1 IH]; intros cs2 tx h; simpl.
  - now destruct (run Strict driver cs2 tx h) as [[? ?] ?].
  - destruct (step Strict driver c tx h) as [err tx' h' | h']; [| reflexivity].
    rewrite IH. destruct (run Strict driver cs1 tx' h') as [[errs1 [tx1 |]] h1]; [| reflexivity].
    now destruct (run Strict driver cs2 tx1 h1) as [[? ?] ?].
Qed.

(** [n] nested [Begin]s on a transaction that is not rolled back. *)
Lemma run_Begins n : forall tx h,
  IsRollbacked tx = false ->
  run Strict driver (repeat Begin n) tx h = (repeat None n, Some (Nat.iter n pushState tx), h).
Proof.
  induction n as [| n IH]; intros tx h F; [reflexivity |].
  cbn [repeat TxModel.run]. rewrite step_Begin, F, IH by assumption.
  now rewrite Nat.iter_succ_r.
Qed.

Lemma iter_pushState n tx :
  state tx = txPending ->
  Nat.iter n pushState tx = mkTx (IsRollbacked tx) txPending (stateStack tx ++ repeat txPending n).
Proof.
  intros P. induction n as [| n IH].
  - simpl. rewrite app_nil_r. destruct tx; simpl in *; now subst.
  - rewrite Nat.iter_succ, IH. unfold pushState, with_state, with_stateStack.
    cbn [state stateStack IsRollbacked repeat].
    now rewrite repeat_cons, app_assoc.
Qed.

(** [Commit] in a nested scope only marks the scope. *)
Lemma Commit_nested l x h :
  Tx_Commit driver (mkTx false txPending (l ++ [x])) h
  = (None, mkTx false txCommitted (l ++ [x]), h).
Proof.
  unfold Tx_Commit. simpl. rewrite length_app. simpl.
  now replace (length l + 1 =? 0) with false by (symmetry; apply Nat.eqb_neq; lia).
Qed.

(** [Commit] on a scope that is marked committed. *)
Lemma run_Commits_committed k : forall tx h,
  IsRollbacked tx = false -> state tx = txCommitted ->
  run Strict driver (repeat Commit k) tx h
  = (repeat (Some (Logger_Error "Transaction has already been commited" [])) k, Some tx, h).
Proof.
  induction k as [| k IH]; intros tx h F C; [reflexivity |].
  cbn [repeat TxModel.run step]. unfold Tx_Commit. rewrite F, C. simpl.
  now rewrite IH.
Qed.

(** [k] nested scopes, each left by [Commit] and the deferred
    [AutoRollback]. *)
Lemma run_Commit_AutoRollback k : forall l h,
  run Strict driver (concat (repeat [Commit; AutoRollback] k))
      (mkTx false txPending (l ++ repeat txPending k)) h
  = (repeat None (k + k), Some (mkTx false txPending l), h).
Proof.
  induction k as [| k IH]; intros l h.
  - simpl. now rewrite app_nil_r.
  - change (repeat txPending (S k)) with (txPending :: repeat txPending k).
    rewrite repeat_cons, app_assoc.
    cbn [repeat concat app TxModel.run step].
    rewrite Commit_nested.
    unfold Tx_AutoRollback. cbn [IsRollbacked state txState_eqb orb].
    rewrite popState_snoc, IH.
    replace (S k + S k) with (S (S (k + k))) by lia. reflexivity.
Qed.

(** ** Nested [Begin] and [Commit] *)

(** C1, as amended.  On a pending transaction that is not rolled back, [n >= 1]
    nested [Begin()] calls followed by [n] [Commit()] calls make no call on
    the real transaction: the first [Commit()] succeeds and only marks the
    innermost scope committed, each later [Commit()] fails with the
    already-committed error, because [Commit()] never pops the state stack.
    When instead every nested scope is left by [Commit()] followed by
    [AutoRollback()] (which pops the scope), all these calls succeed without
    touching the real transaction and bring the [Tx] back to where it was;
    the outermost [Commit()], on the empty stack, then issues the one real
    commit and returns what the driver answers. *)
Theorem nested_Commit_is_deferred_to_the_empty_stack n tx h :
  n >= 1 -> IsRollbacked tx = false -> state tx = txPending ->
  run Strict driver (repeat Begin n ++ repeat Commit n) tx h
  = (repeat None n ++ None ::
       repeat (Some (Logger_Error "Transaction has already been commited" [])) (n - 1),
     Some (mkTx false txCommitted (stateStack tx ++ repeat txPending n)), h)
  /\ run Strict driver (repeat Begin n ++ concat (repeat [Commit; AutoRollback] n)) tx h
     = (repeat None (n + (n + n)), Some tx, h)
  /\ (stateStack tx = [] ->
      run Strict driver
          (repeat Begin n ++ concat (repeat [Commit; AutoRollback] n) ++ [Commit]) tx h
      = match driver h realCommit with
        | None =>
            (repeat None (n + (n + n)) ++ [None],
             Some (with_state txCommitted tx), h ++ [(realCommit, None)])
        | Some e =>
            (repeat None (n + (n + n)) ++ [Some (Logger_Error "commit.error" [ArgError e])],
             Some (with_state txErred tx), h ++ [(realCommit, Some e)])
        end).
Proof.
  intros Hn F P.
  assert (Etx : tx = mkTx false txPending (stateStack tx))
    by (destruct tx; simpl in *; now subst).
  assert (Rounds : run Strict driver
            (repeat Begin n ++ concat (repeat [Commit; AutoRollback] n)) tx h
          = (repeat None (n + (n + n)), Some tx, h)).
  { rewrite run_app, run_Begins, iter_pushState, F by assumption.
    rewrite run_Commit_AutoRollback, <- Etx. now rewrite <- repeat_app. }
  split; [| split; [exact Rounds |]].
  - rewrite run_app, run_Begins, iter_pushState, F by assumption.
    destruct n as [| n]; [lia |].
    change (repeat txPending (S n)) with (txPending :: repeat txPending n).
    rewrite repeat_cons, app_assoc.
    cbn [repeat TxModel.run step]. rewrite Commit_nested.
    rewrite run_Commits_committed by reflexivity.
    now replace (S n - 1) with n by lia.
  - intros E. rewrite app_assoc, run_app, Rounds.
    cbn [TxModel.run step]. unfold Tx_Commit, sqlx_call. rewrite F, P, E. simpl.
    now destruct (driver h realCommit).
Qed.

(** ** [Rollback] *)



(** ** [Begin] *)

(** C6.  [Tx.Begin()], called through the handle [p], fails with
    [ErrTxRollbacked] (and returns nil, leaving the [Tx] as it is) exactly
    when the rollback flag is set; otherwise it pushes the current state on
    the state stack, resets the state to pending, returns no error and
    returns the handle [p] itself: the store holds the same objects as
    before, with the one at [p] updated. *)
Theorem Begin_returns_its_receiver (p : nat) (store : gmap nat Tx) (tx : Tx) :
  store !! p = Some tx ->
  (IsRollbacked tx = true ->
   Begin_at p store = Some (None, Some ErrTxRollbacked, store)) /\
  (IsRollbacked tx = false ->
   Begin_at p store
   = Some (Some p, None,
           <[p := mkTx false txPending (stateStack tx ++ [state tx])]> store)) /\
  ((exists ret store', Begin_at p store = Some (ret, Some ErrTxRollbacked, store'))
   <-> IsRollbacked tx = true).
Proof.
  intros L. unfold Begin_at, Tx_Begin. rewrite L.
  destruct (IsRollbacked tx) eqn:F; simpl.
  - rewrite insert_id by assumption. repeat split; try discriminate; eauto.
  - unfold pushState, with_state, with_stateStack. simpl. rewrite F.
    repeat split; try discriminate.
    intros (ret & store' & E). discriminate.
Qed.

(** ** The depth of the state stack *)

Lemma step_depth c tx h err tx' h' :
  step Strict driver c tx h = Return err tx' h' ->
  length (stateStack tx') = depth_step (length (stateStack tx)) c err.
Proof.
  destruct c; simpl;
    unfold Tx_Begin, Tx_Commit, Tx_Rollback, Tx_AutoCommit, Tx_AutoRollback, sqlx_call;
    repeat match goal with
           | |- context [if ?b then _ else _] => destruct b
           | |- context [match ?o with Some _ => _ | None => _ end] => destruct o
           end;
    intros E; inversion E; subst;
    rewrite ?popState_length, ?pushState_length; reflexivity.
Qed.

(** C9.  Whatever the calls, as long as the process lives the depth of the
    state stack is the net nesting depth counted on the calls: a [Begin()]
    that returns a handle pushes exactly one entry, [AutoCommit()] and
    [AutoRollback()] (the finalizers that pop) remove exactly one entry when
    there is one, [Commit()] and [Rollback()] leave the stack alone; and
    [popState()] on an empty stack changes neither the state nor the
    stack. *)
Theorem stateStack_depth_is_net_nesting cs :
  (forall tx h errs tx' h',
     run Strict driver cs tx h = (errs, Some tx', h') ->
     length errs = length cs /\
     length (stateStack tx') = net_depth (combine cs errs) (length (stateStack tx))) /\
  (forall tx, length (stateStack (pushState tx)) = S (length (stateStack tx))) /\
  (forall tx, length (stateStack (popState tx)) = pred (length (stateStack tx))) /\
  (forall tx, stateStack tx = [] -> popState tx = tx).
Proof.
  split; [| split; [exact pushState_length | split; [exact popState_length | exact popState_empty]]].
  induction cs as [| c cs IH]; intros tx h errs tx' h' R; simpl in R.
  - inversion R; subst. split; reflexivity.
  - destruct (step Strict driver c tx h) as [err tx1 h1 | h1] eqn:S1; [| discriminate].
    destruct (run Strict driver cs tx1 h1) as [[errs1 end1] h2] eqn:R1.
    inversion R; subst. destruct (IH _ _ _ _ _ R1) as [L D].
    split; [simpl; now rewrite L |].
    simpl. rewrite D. now rewrite (step_depth _ _ _ _ _ _ S1).
Qed.

(** ** How often the real transaction is finalized *)

Lemma successes_app h1 h2 : successes (h1 ++ h2) = successes h1 + successes h2.
Proof. unfold successes. now rewrite List.filter_app, length_app. Qed.

Lemma leaves_nil tx : leaves Strict driver tx tx [].
Proof. intros h. exists [], (Some tx), []. rewrite app_nil_r. simpl. auto. Qed.

Lemma leaves_app a b c cs1 cs2 :
  leaves Strict driver a b cs1 -> leaves Strict driver b c cs2 ->
  leaves Strict driver a c (cs1 ++ cs2).
Proof.
  intros L1 L2 h. destruct (L1 h) as (errs1 & end1 & hx1 & R1 & C1).
  rewrite run_app, R1. destruct end1 as [tx1 |].
  - destruct C1 as [[-> S1] | [F1 S1]].
    + destruct (L2 (h ++ hx1)) as (errs2 & end2 & hx2 & R2 & C2). rewrite R2.
      exists (errs1 ++ errs2), end2, (hx1 ++ hx2). rewrite app_assoc.
      split; [reflexivity |]. rewrite successes_app, length_app, S1.
      destruct end2 as [tx2 |]; simpl; intuition lia.
    + destruct (run_after_rollback cs2 tx1 (h ++ hx1) F1) as (tx2 & -> & F2).
      exists (errs1 ++ map after_rollback cs2), (Some tx2), hx1. auto.
  - exists errs1, None, hx1. auto.
Qed.

Lemma leaves_Begin tx :
  IsRollbacked tx = false -> leaves Strict driver tx (pushState tx) [Begin].
Proof.
  intros F h. cbn [TxModel.run]. rewrite step_Begin, F.
  exists [None], (Some (pushState tx)), []. rewrite app_nil_r. simpl. auto.
Qed.

(** Leaving a nested scope: the optional [Commit] or [Rollback], then the
    deferred [AutoRollback]. *)
Lemma leaves_nested_scope f tx :
  finalizer f -> IsRollbacked tx = false ->
  leaves Strict driver (pushState tx) tx (f ++ [AutoRollback]).
Proof.
  intros Hf F h. destruct tx as [b s l]. simpl in F. subst b.
  unfold pushState, with_state, with_stateStack. cbn [IsRollbacked state stateStack].
  destruct Hf; cbn [app TxModel.run step]; rewrite ?Commit_nested;
    unfold Tx_Rollback, Tx_AutoRollback, sqlx_call;
    cbn [IsRollbacked state stateStack txState_eqb orb with_state with_IsRollbacked].
  - destruct (driver h realRollback) as [e |]; [destruct Strict |].
    + exists [], None, [(realRollback, Some e)]. simpl. auto.
    + eexists _, _, [(realRollback, Some e)]. split; [reflexivity |].
      left. unfold with_state. simpl. now rewrite popState_snoc.
    + eexists _, _, [(realRollback, None)]. split; [reflexivity |].
      right. now rewrite popState_IsRollbacked.
  - rewrite popState_snoc. eexists _, _, []. rewrite app_nil_r.
    split; [reflexivity |]. now left.
  - destruct (driver h realRollback) as [e |].
    + cbn [IsRollbacked state stateStack txState_eqb orb with_state with_IsRollbacked].
      destruct (driver (h ++ [(realRollback, Some e)]) realRollback) as [e' |];
        [destruct Strict |].
      * exists [Some (Logger_Error "Unable to rollback" [ArgString "err"; ArgError e])],
          None, [(realRollback, Some e); (realRollback, Some e')].
        rewrite <- app_assoc. simpl. auto.
      * eexists _, _, [(realRollback, Some e); (realRollback, Some e')].
        rewrite <- app_assoc. split; [reflexivity |].
        left. unfold with_state. simpl. now rewrite popState_snoc.
      * eexists _, _, [(realRollback, Some e); (realRollback, None)].
        rewrite <- app_assoc. split; [reflexivity |].
        right. now rewrite popState_IsRollbacked.
    + cbn [IsRollbacked state stateStack txState_eqb orb with_state with_IsRollbacked].
      eexists _, _, [(realRollback, None)]. split; [reflexivity |].
      right. now rewrite popState_IsRollbacked.
Qed.

Lemma leaves_scopes cs :
  scopes cs -> forall tx, IsRollbacked tx = false -> leaves Strict driver tx tx cs.
Proof.
  induction 1 as [| inner f rest _ IHinner Hf _ IHrest]; intros tx F.
  - apply leaves_nil.
  - change (Begin :: inner ++ f ++ AutoRollback :: rest)
      with ([Begin] ++ inner ++ f ++ [AutoRollback] ++ rest).
    apply leaves_app with (pushState tx); [now apply leaves_Begin |].
    apply leaves_app with (pushState tx); [now apply IHinner |].
    rewrite app_assoc.
    apply leaves_app with tx; [now apply leaves_nested_scope | now apply IHrest].
Qed.

Lemma successes_le h : successes h <= length h.
Proof.
  unfold successes. induction h as [| e h IH]; simpl; [lia |].
  destruct (succeeded e); simpl; lia.
Qed.

(** Leaving the outermost scope, whose stack is empty. *)
Lemma outermost_scope f h :
  finalizer f ->
  exists errs end_tx hx,
    run Strict driver (f ++ [AutoRollback]) WrapSqlxTx h = (errs, end_tx, h ++ hx) /\
    successes hx <= 1 /\ 1 <= length hx.
Proof.
  intros Hf.
  destruct Hf; cbn [app TxModel.run step];
    unfold Tx_Commit, Tx_Rollback, Tx_AutoRollback, sqlx_call, WrapSqlxTx;
    cbn [IsRollbacked state stateStack txState_eqb orb length Nat.eqb
         with_state with_IsRollbacked].
  - destruct (driver h realRollback) as [e |]; [destruct Strict |];
      eexists _, _, [_]; (split; [reflexivity |]); unfold successes; simpl; lia.
  - destruct (driver h realCommit) as [e |];
      cbn [IsRollbacked state stateStack txState_eqb orb with_state with_IsRollbacked].
    + destruct (driver (h ++ [(realCommit, Some e)]) realRollback) as [e' |];
        [destruct Strict |];
        eexists _, _, [_; _]; rewrite <- app_assoc;
        (split; [reflexivity |]); unfold successes; simpl; lia.
    + eexists _, _, [_]; (split; [reflexivity |]); unfold successes; simpl; lia.
  - destruct (driver h realRollback) as [e |];
      cbn [IsRollbacked state stateStack txState_eqb orb with_state with_IsRollbacked].
    + destruct (driver (h ++ [(realRollback, Some e)]) realRollback) as [e' |];
        [destruct Strict |];
        eexists _, _, [_; _]; rewrite <- app_assoc;
        (split; [reflexivity |]); unfold successes; simpl; lia.
    + eexists _, _, [_]; (split; [reflexivity |]); unfold successes; simpl; lia.
Qed.

(** With a driver that refuses nothing, every real call is accepted and the
    process lives. *)
Lemma run_accepted cs :
  (forall h c, driver h c = None) ->
  forall tx h, exists errs tx' hx,
    run Strict driver cs tx h = (errs, Some tx', h ++ hx) /\ successes hx = length hx.
Proof.
  intros A. induction cs as [| c cs IH]; intros tx h.
  - exists [], tx, []. now rewrite app_nil_r.
  - assert (S1 : exists err tx1 hx1,
               step Strict driver c tx h = Return err tx1 (h ++ hx1)
               /\ successes hx1 = length hx1).
    { destruct c; simpl;
        unfold Tx_Begin, Tx_Commit, Tx_Rollback, Tx_AutoCommit, Tx_AutoRollback, sqlx_call;
        rewrite ?A;
        repeat match goal with
               | |- context [if ?b then _ else _] => destruct b
               end;
        first [ eexists _, _, []; rewrite app_nil_r; split; reflexivity
              | eexists _, _, [_]; split; reflexivity ]. }
    destruct S1 as (err & tx1 & hx1 & S1 & E1). cbn [TxModel.run]. rewrite S1.
    destruct (IH tx1 (h ++ hx1)) as (errs & tx' & hx & -> & E).
    exists (err :: errs), tx', (hx1 ++ hx). rewrite app_assoc.
    split; [reflexivity |]. rewrite successes_app, length_app. lia.
Qed.

Lemma step_Rollback_accepted c tx h err tx' :
  step Strict driver c tx h = Return err tx' (h ++ [(realRollback, None)]) ->
  IsRollbacked tx' = true.
Proof.
  assert (N : forall e : realCall * option error, h ++ [e] <> h).
  { intros e E. apply (f_equal (@length _)) in E. rewrite length_app in E. simpl in E. lia. }
  destruct c; simpl;
    unfold Tx_Begin, Tx_Commit, Tx_Rollback, Tx_AutoCommit, Tx_AutoRollback, sqlx_call;
    repeat match goal with
           | |- context [if ?b then _ else _] => destruct b eqn:?
           | |- context [match ?o with Some _ => _ | None => _ end] => destruct o eqn:?
           end;
    intros E; inversion E; subst; rewrite ?popState_IsRollbacked;
    try reflexivity; try assumption;
    try (exfalso; eapply N; eauto; fail);
    try (match goal with H : _ ++ [_] = _ ++ [_] |- _ =>
           apply app_inj_tail in H; destruct H as [_ H]; discriminate end).
  all: rewrite ?orb_true_iff, ?orb_false_iff in *; intuition congruence.
Qed.

(** C2, as amended.  The real transaction can be called more than once, but:
    a call makes at most one call on the real transaction; a real rollback
    that the driver accepts sets the rollback flag, and once the flag is set
    no call reaches the real transaction again; and when the calls on a fresh
    [Tx] follow the scope discipline (every [Begin()] is closed by an optional
    [Commit()] or [Rollback()] and then [AutoRollback()], the outermost scope
    is closed the same way), at least one real call is made, at most one real
    call is accepted, and exactly one real call is made if the driver refuses
    nothing. *)
Theorem real_transaction_finalized_once :
  (forall c tx h,
     match step Strict driver c tx h with
     | Return _ _ h' | Exit h' => h' = h \/ exists entry, h' = h ++ [entry]
     end) /\
  (forall c tx h err tx',
     step Strict driver c tx h = Return err tx' (h ++ [(realRollback, None)]) ->
     IsRollbacked tx' = true) /\
  (forall cs tx h,
     IsRollbacked tx = true ->
     exists errs tx', run Strict driver cs tx h = (errs, Some tx', h)
                      /\ IsRollbacked tx' = true) /\
  (forall cs,
     unit_of_work cs ->
     exists errs end_tx h,
       run Strict driver cs WrapSqlxTx [] = (errs, end_tx, h) /\
       1 <= length h /\ successes h <= 1 /\
       ((forall h0 c, driver h0 c = None) -> length h = 1)).
Proof.
  split; [exact step_history |]. split; [exact step_Rollback_accepted |].
  split.
  { intros cs tx h F. destruct (run_after_rollback cs tx h F) as (tx' & R & F').
    eauto. }
  intros cs (inner & f & Hin & Hf & ->).
  assert (Main : exists errs end_tx h,
            run Strict driver (inner ++ f ++ [AutoRollback]) WrapSqlxTx [] = (errs, end_tx, h)
            /\ 1 <= length h /\ successes h <= 1).
  { rewrite run_app.
    destruct (leaves_scopes inner Hin WrapSqlxTx eq_refl []) as (errs1 & end1 & hx1 & R1 & C1).
    rewrite R1. simpl app. destruct end1 as [tx1 |].
    - destruct C1 as [[-> S1] | [F1 S1]].
      + destruct (outermost_scope f hx1 Hf) as (errs2 & end2 & hx2 & R2 & S2 & L2).
        rewrite R2. do 3 eexists. split; [reflexivity |].
        rewrite successes_app, length_app. lia.
      + destruct (run_after_rollback (f ++ [AutoRollback]) tx1 hx1 F1) as (tx2 & -> & _).
        do 3 eexists. split; [reflexivity |].
        pose proof (successes_le hx1). lia.
    - do 3 eexists. split; [reflexivity |]. lia. }
  destruct Main as (errs & end_tx & h & R & L & S1).
  exists errs, end_tx, h. repeat split; try assumption.
  intros A.
  destruct (run_accepted (inner ++ f ++ [AutoRollback]) A WrapSqlxTx [])
    as (errs' & tx' & hx & R' & E).
  rewrite R in R'. simpl in R'. inversion R'; subst. lia.
Qed.

(** ** [AutoCommit] and [AutoRollback] on a finalized transaction *)

(** After a rollback both are no-ops that pop the stack, and so is
    [AutoRollback] on a scope marked committed; [AutoCommit] on a scope
    marked committed calls the real transaction. *)
Lemma Auto_after_finalize tx h :
  (IsRollbacked tx = true ->
   Tx_AutoCommit Strict driver tx h = Return None (popState tx) h /\
   Tx_AutoRollback Strict driver tx h = Return None (popState tx) h) /\
  (state tx = txCommitted ->
   Tx_AutoRollback Strict driver tx h = Return None (popState tx) h) /\
  (IsRollbacked tx = false -> state tx = txCommitted ->
   match Tx_AutoCommit Strict driver tx h with
   | Return _ _ h' | Exit h' => h' = h ++ [(realCommit, driver h realCommit)]
   end).
Proof.
  unfold Tx_AutoCommit, Tx_AutoRollback, sqlx_call.
  split; [| split].
  - intros ->. now rewrite orb_true_r.
  - intros ->. now rewrite orb_true_r.
  - intros -> ->. simpl. destruct (driver h realCommit); [destruct Strict |]; reflexivity.
Qed.

End TxFacts.

(** ** The claims on concrete runs *)

(** C1, as stated, fails: two nested [Begin()] then two [Commit()] on a fresh
    [Tx], with a driver that accepts everything.  The second [Commit()]
    fails, and the real transaction is never committed. *)
Lemma nested_Begin_Commit_counterexample :
  let '(errs, _, h) :=
    run false accepting (repeat Begin 2 ++ repeat Commit 2) WrapSqlxTx [] in
  errs = [None; None; None; Some (Logger_Error "Transaction has already been commited" [])]
  /\ h = []
  /\ ~ (Forall (fun err => err = None) errs /\ h = [(realCommit, None)]).
Proof.
  simpl. repeat split. intros [_ E]. discriminate.
Qed.

Lemma nested_Commit_is_deferred_witness :
  2 >= 1 /\
  run false accepting
      (repeat Begin 2 ++ concat (repeat [Commit; AutoRollback] 2) ++ [Commit]) WrapSqlxTx []
  = (repeat None 7, Some (mkTx false txCommitted []), [(realCommit, None)]).
Proof.
  split; [lia |].
  apply (nested_Commit_is_deferred_to_the_empty_stack false accepting 2 WrapSqlxTx []);
    [lia | reflexivity | reflexivity | reflexivity].
Defined.

(** C2, as stated, fails: [AutoCommit()] in a nested scope commits the real
    transaction and pops the scope, and the outer [Commit()], on the empty
    stack of a pending [Tx], calls the real commit again: two real calls,
    both accepted by a driver that accepts everything, the second one
    refused by a driver in the manner of [database/sql]. *)
Lemma finalized_once_counterexample :
  (let '(errs, _, h) := run false accepting [Begin; AutoCommit; Commit] WrapSqlxTx [] in
   errs = [None; None; None]
   /\ h = [(realCommit, None); (realCommit, None)]
   /\ ~ length h <= 1) /\
  (let '(_, _, h) := run false done_after_first [Begin; AutoCommit; Commit] WrapSqlxTx [] in
   h = [(realCommit, None);
        (realCommit,
         Some (DriverError "sql: transaction has already been committed or rolled back"))]
   /\ ~ length h <= 1).
Proof.
  split; simpl; repeat split; lia.
Qed.

Lemma real_transaction_finalized_once_witness :
  unit_of_work [Begin; Commit; AutoRollback; Commit; AutoRollback] /\
  exists errs end_tx h,
    run false accepting [Begin; Commit; AutoRollback; Commit; AutoRollback] WrapSqlxTx []
    = (errs, end_tx, h) /\
    1 <= length h /\ successes h <= 1 /\
    ((forall h0 c, accepting h0 c = None) -> length h = 1).
Proof.
  assert (U : unit_of_work [Begin; Commit; AutoRollback; Commit; AutoRollback]).
  { exists [Begin; Commit; AutoRollback], [Commit].
    split; [apply (scopes_cons [] [Commit] []); constructor |].
    split; [constructor | reflexivity]. }
  split; [exact U |].
  apply (proj2 (proj2 (proj2 (real_transaction_finalized_once false accepting)))).
  exact U.
Defined.



(** C4: the code at the failing input.  On a fresh [Tx], [Commit()] commits
    the real transaction; the [AutoCommit()] that follows commits it a
    second time.  With a driver in the manner of [database/sql], which
    refuses the second commit, [AutoCommit()] returns an error and leaves
    the [Tx] errored, and in strict mode it ends the process. *)
Theorem AutoCommit_after_Commit_commits_again :
  (forall Strict,
     run Strict accepting [Commit; AutoCommit] WrapSqlxTx []
     = ([None; None], Some (mkTx false txCommitted []),
        [(realCommit, None); (realCommit, None)])) /\
  run false done_after_first [Commit; AutoCommit] WrapSqlxTx []
  = ([None;
      Some (Logger_Error "transaction.AutoCommit.commit_error"
              [ArgError (DriverError
                 "sql: transaction has already been committed or rolled back")])],
     Some (mkTx false txErred []),
     [(realCommit, None);
      (realCommit,
       Some (DriverError "sql: transaction has already been committed or rolled back"))]) /\
  run true done_after_first [Commit; AutoCommit] WrapSqlxTx []
  = ([None], None,
     [(realCommit, None);
      (realCommit,
       Some (DriverError "sql: transaction has already been committed or rolled back"))]).
Proof.
  split; [intros []; reflexivity | split; reflexivity].
Qed.

Lemma Begin_returns_its_receiver_witness :
  ({[7 := WrapSqlxTx]} : gmap nat Tx) !! 7 = Some WrapSqlxTx /\
  IsRollbacked WrapSqlxTx = false /\
  Begin_at 7 {[7 := WrapSqlxTx]}
  = Some (Some 7, None, <[7 := mkTx false txPending [txPending]]> {[7 := WrapSqlxTx]}).
Proof.
  assert (L : ({[7 := WrapSqlxTx]} : gmap nat Tx) !! 7 = Some WrapSqlxTx) by reflexivity.
  split; [exact L |]. split; [reflexivity |].
  apply (proj1 (proj2 (Begin_returns_its_receiver 7 {[7 := WrapSqlxTx]} WrapSqlxTx L))).
  reflexivity.
Defined.

Lemma stateStack_depth_witness :
  run false accepting [Begin; Begin; Commit; AutoRollback; AutoRollback; AutoRollback]
      WrapSqlxTx []
  = ([None; None; None; None; None; None],
     Some (mkTx true txPending []), [(realRollback, None)]) /\
  length (stateStack (mkTx true txPending []))
  = net_depth (combine [Begin; Begin; Commit; AutoRollback; AutoRollback; AutoRollback]
                       [None; None; None; None; None; None])
              (length (stateStack WrapSqlxTx)) /\
  popState WrapSqlxTx = WrapSqlxTx.
Proof.
  split; [reflexivity |]. split.
  - apply (proj1 (stateStack_depth_is_net_nesting false accepting
                    [Begin; Begin; Commit; AutoRollback; AutoRollback; AutoRollback])
             WrapSqlxTx [] _ _ [(realRollback, None)]).
    reflexivity.
  - apply (proj2 (proj2 (proj2 (stateStack_depth_is_net_nesting false accepting [])))).
    reflexivity.
Defined.

(** * Properties of the interpolation safety gate *)

Import Gate.

Lemma gate_disabled conn p : pgMustNotAllowEscapeSequence false conn p = Returns p.
Proof. reflexivity. Qed.

(** With [on] in the cache the gate returns at once, whatever the server
    would answer. *)
Lemma gate_cached_on flag conn p :
  standardConformingStrings p = "on" -> pgMustNotAllowEscapeSequence flag conn p = Returns p.
Proof.
  intros E. unfold pgMustNotAllowEscapeSequence. destruct flag; [| reflexivity].
  simpl. rewrite E. simpl. now rewrite E.
Qed.

Lemma open_all_cached_on flag conns : forall p,
  standardConformingStrings p = "on" -> open_all flag conns p = Returns p.
Proof.
  induction conns as [| conn conns IH]; intros p E; simpl; [reflexivity |].
  rewrite gate_cached_on by assumption. now apply IH.
Qed.

(** One call of the gate: it queries at most once, and if it has queried
    and returns, the cache holds [on]. *)
Lemma gate_queries flag conn p :
  match pgMustNotAllowEscapeSequence flag conn p with
  | Returns p' =>
      p' = p \/ (queries p' = S (queries p) /\ standardConformingStrings p' = "on")
  | Panics _ asked => asked <= S (queries p)
  | Fatal p' => queries p' <= S (queries p)
  end.
Proof.
  unfold pgMustNotAllowEscapeSequence. destruct flag; simpl; [| now left].
  destruct (String.eqb (standardConformingStrings p) "") eqn:E.
  - destruct conn as [err | setting]; simpl; [lia |].
    destruct (String.eqb setting "on") eqn:O; simpl; [| lia].
    right. split; [reflexivity | now apply String.eqb_eq].
  - destruct (String.eqb (standardConformingStrings p) "on"); simpl; [now left | lia].
Qed.

Lemma open_all_queries flag conns : forall p,
  asked_by (open_all flag conns p) <= S (queries p).
Proof.
  induction conns as [| conn conns IH]; intros p; simpl; [lia |].
  pose proof (gate_queries flag conn p) as G.
  destruct (pgMustNotAllowEscapeSequence flag conn p) as [p' | err asked | p']; simpl; try lia.
  destruct G as [-> | [Q O]]; [apply IH |].
  rewrite open_all_cached_on by assumption. simpl. lia.
Qed.

(** C5.  With the interpolation flag off the gate does nothing.  With the
    flag on: over all the connections a process opens the setting is asked
    of a server at most once; the first answer [on] is cached, and from then
    on the gate returns without asking, whatever connection is opened; an
    answer that cannot be had is a panic with that error; and a setting other
    than [on], fresh from the server or found in the cache, is a fatal log
    that ends the process. *)
Theorem gate_checks_once_and_refuses_escapes :
  (forall conn p, pgMustNotAllowEscapeSequence false conn p = Returns p) /\
  (forall conns, asked_by (open_all true conns started) <= 1) /\
  (forall p,
     standardConformingStrings p = "" ->
     pgMustNotAllowEscapeSequence true (inr "on") p = Returns (mkProcess "on" (S (queries p))) /\
     forall conns,
       open_all true (inr "on" :: conns) p = Returns (mkProcess "on" (S (queries p)))) /\
  (forall err p,
     standardConformingStrings p = "" ->
     pgMustNotAllowEscapeSequence true (inl err) p = Panics err (S (queries p))) /\
  (forall setting p,
     standardConformingStrings p = "" -> setting <> "on" ->
     pgMustNotAllowEscapeSequence true (inr setting) p
     = Fatal (mkProcess setting (S (queries p)))) /\
  (forall conn p,
     standardConformingStrings p <> "" -> standardConformingStrings p <> "on" ->
     pgMustNotAllowEscapeSequence true conn p = Fatal p).
Proof.
  split; [exact gate_disabled |].
  split; [intros conns; apply (open_all_queries true conns started) |].
  split.
  { intros p E.
    assert (G : pgMustNotAllowEscapeSequence true (inr "on") p
                = Returns (mkProcess "on" (S (queries p)))).
    { unfold pgMustNotAllowEscapeSequence. now rewrite E. }
    split; [exact G |]. intros conns. simpl open_all. rewrite G.
    now apply open_all_cached_on. }
  split.
  { intros err p E. unfold pgMustNotAllowEscapeSequence. now rewrite E. }
  split.
  { intros setting p E N. unfold pgMustNotAllowEscapeSequence. rewrite E. simpl.
    apply String.eqb_neq in N. now rewrite N. }
  intros conn p N1 N2. unfold pgMustNotAllowEscapeSequence. simpl.
  apply String.eqb_neq in N1, N2. now rewrite N1, N2.
Qed.

Lemma gate_witness :
  standardConformingStrings started = "" /\
  "off" <> "on" /\
  pgMustNotAllowEscapeSequence true (inr "off") started = Fatal (mkProcess "off" 1) /\
  open_all true [inr "on"; inr "off"; inl ErrTxRollbacked] started
  = Returns (mkProcess "on" 1) /\
  pgMustNotAllowEscapeSequence true (inl (DriverError "pq: no rows")) started
  = Panics (DriverError "pq: no rows") 1.
Proof.
  pose proof gate_checks_once_and_refuses_escapes as (_ & _ & On & Err & Off & _).
  split; [reflexivity |]. split; [discriminate |].
  split; [apply (Off "off" started); [reflexivity | discriminate] |].
  split; [apply (On started); reflexivity |].
  apply (Err _ started). reflexivity.
Defined.

(** * Properties of the execution gateway *)

Import Gateway.

Section GatewayFacts.

Variable database : Type.
Variable runner_Exec : database -> string -> list string -> database * option error.

Lemma ExecMulti_range_all_succeed commands : forall k q db',
  run_all database runner_Exec commands (runner q) = (repeat None (length commands), db') ->
  ExecMulti_range database runner_Exec k commands q
  = (None, mkQueryable db' (executed q ++ commands)).
Proof.
  induction commands as [| cmd commands IH]; intros k [db ex] db' R; simpl in *.
  - inversion R. now rewrite app_nil_r.
  - unfold Exec_cmd. simpl.
    destruct (runner_Exec db (SQL cmd) (Args cmd)) as [db1 err].
    destruct (run_all database runner_Exec commands db1) as [errs db2] eqn:R1.
    injection R as -> -> ->.
    rewrite (IH (S k) (mkQueryable db1 (ex ++ [cmd])) db').
    + simpl. now rewrite <- app_assoc.
    + simpl. now rewrite R1.
Qed.

Lemma ExecMulti_range_first_failure i : forall commands k q cmd e db_i db',
  run_all database runner_Exec (firstn i commands) (runner q) = (repeat None i, db_i) ->
  commands !! i = Some cmd ->
  runner_Exec db_i (SQL cmd) (Args cmd) = (db', Some e) ->
  ExecMulti_range database runner_Exec k commands q
  = (Some (k + i, e), mkQueryable db' (executed q ++ firstn (S i) commands)).
Proof.
  induction i as [| i IH]; intros commands k [db ex] cmd e db_i db' R L X;
    destruct commands as [| c commands]; try discriminate; simpl in *.
  - inversion L; subst. inversion R; subst. unfold Exec_cmd. simpl. rewrite X.
    now rewrite Nat.add_0_r.
  - unfold Exec_cmd. simpl.
    destruct (runner_Exec db (SQL c) (Args c)) as [db1 err].
    destruct (run_all database runner_Exec (firstn i commands) db1) as [errs db2] eqn:R1.
    injection R as -> -> ->.
    rewrite (IH commands (S k) (mkQueryable db1 (ex ++ [c])) cmd e db_i db');
      try assumption.
    simpl. now rewrite <- app_assoc, Nat.add_succ_r.
Qed.

(** C7.  When the statements up to index [i] (excluded) succeed one after
    the other on the runner and the statement at index [i] then fails with
    [e], [ExecMulti] hands exactly the statements 0 to [i] to the runner, in
    order, none after, and returns [i] with [e] as it came; when all succeed
    it hands over all of them and returns their number and no error. *)
Theorem ExecMulti_stops_at_first_failure commands q :
  (forall i cmd e db_i db',
     run_all database runner_Exec (firstn i commands) (runner q) = (repeat None i, db_i) ->
     commands !! i = Some cmd ->
     runner_Exec db_i (SQL cmd) (Args cmd) = (db', Some e) ->
     ExecMulti database runner_Exec commands q
     = (i, Some e, mkQueryable db' (executed q ++ firstn (S i) commands))) /\
  (forall db',
     run_all database runner_Exec commands (runner q) = (repeat None (length commands), db') ->
     ExecMulti database runner_Exec commands q
     = (length commands, None, mkQueryable db' (executed q ++ commands))).
Proof.
  split.
  - intros i cmd e db_i db' R L X. unfold ExecMulti.
    now rewrite (ExecMulti_range_first_failure i commands 0 q cmd e db_i db' R L X).
  - intros db' R. unfold ExecMulti.
    now rewrite (ExecMulti_range_all_succeed commands 0 q db' R).
Qed.

End GatewayFacts.

Lemma ExecMulti_witness :
  ExecMulti nat counting_Exec
    [mkExpression "insert 1" []; mkExpression "boom" []; mkExpression "insert 3" []]
    (mkQueryable 0 [])
  = (1, Some (DriverError "pq: syntax error"),
     mkQueryable 1 [mkExpression "insert 1" []; mkExpression "boom" []]) /\
  ExecMulti nat counting_Exec
    [mkExpression "insert 1" []; mkExpression "insert 2" []] (mkQueryable 0 [])
  = (2, None, mkQueryable 2 [mkExpression "insert 1" []; mkExpression "insert 2" []]).
Proof.
  split.
  - apply (proj1 (ExecMulti_stops_at_first_failure nat counting_Exec
                    [mkExpression "insert 1" []; mkExpression "boom" [];
                     mkExpression "insert 3" []] (mkQueryable 0 []))
             1 (mkExpression "boom" []) (DriverError "pq: syntax error") 1 1);
      reflexivity.
  - apply (proj2 (ExecMulti_stops_at_first_failure nat counting_Exec
                    [mkExpression "insert 1" []; mkExpression "insert 2" []]
                    (mkQueryable 0 [])) 2).
    reflexivity.
Defined.

(** * Properties of the script splitter *)

Import Splitter.

Lemma append_String c s t : String.append (String c s) t = String c (String.append s t).
Proof. reflexivity. Qed.

Lemma append_empty_r s : String.append s EmptyString = s.
Proof.
  induction s as [| c s IH]; [reflexivity |]. now rewrite append_String, IH.
Qed.

Lemma substring_add s : forall a k1 k2,
  substring a (k1 + k2) s = String.append (substring a k1 s) (substring (a + k1) k2 s).
Proof.
  induction s as [| c s IH]; intros a k1 k2.
  - destruct a, k1, k2; reflexivity.
  - destruct a as [| a].
    + destruct k1 as [| k1]; [reflexivity |].
      simpl. now rewrite append_String, IH.
    + simpl. apply IH.
Qed.

Lemma substring_split s a b c :
  a <= b -> b <= c ->
  String.append (substring a (b - a) s) (substring b (c - b) s) = substring a (c - a) s.
Proof.
  intros Hab Hbc. replace (c - a) with ((b - a) + (c - b)) by lia.
  rewrite substring_add. now replace (a + (b - a)) with b by lia.
Qed.

Lemma substring_whole s : substring 0 (String.length s) s = s.
Proof. induction s as [| c s IH]; simpl; [reflexivity | now rewrite IH]. Qed.

Lemma substring_none s : forall a, substring a 0 s = EmptyString.
Proof. induction s as [| c s IH]; intros [| a]; simpl; auto. Qed.

Lemma successive_le indexes : forall from n, successive from indexes n -> from <= n.
Proof.
  induction indexes as [| [a b] indexes IH]; intros from n; simpl; [auto |].
  intros (Ha & Hb & Hs). apply IH in Hs. lia.
Qed.

Lemma slice_in_range text lo hi :
  lo <= hi -> hi <= String.length text ->
  slice text lo hi = Some (substring lo (hi - lo) text).
Proof.
  intros H1 H2. unfold slice.
  apply Nat.leb_le in H1, H2. now rewrite H1, H2.
Qed.

Lemma assign_next (done rest : list string) old v :
  assign (done ++ old :: rest) (length done) v = Some (done ++ v :: rest).
Proof.
  unfold assign. rewrite length_app. simpl.
  replace (length done <? length done + S (length rest)) with true
    by (symmetry; apply Nat.ltb_lt; lia).
  rewrite insert_app_r_alt by lia. now rewrite Nat.sub_diag.
Qed.

Lemma substrings_between_length text indexes : forall from,
  length (substrings_between text from indexes) = length indexes + 1.
Proof.
  induction indexes as [| el indexes IH]; intros from; simpl; [reflexivity |].
  now rewrite IH.
Qed.

(** The loop fills the slots one by one with the substrings before each
    match, and stops on the end of the last match. *)
Lemma splitEx_range_fills text indexes : forall from done m,
  successive from indexes (String.length text) ->
  exists laststart front,
    splitEx_range text indexes (length done) from
      (done ++ replicate (length indexes + m) EmptyString)
    = Some (laststart, done ++ front ++ replicate m EmptyString) /\
    substrings_between text from indexes
    = front ++ [substring laststart (String.length text - laststart) text] /\
    laststart <= String.length text.
Proof.
  induction indexes as [| [a b] indexes IH]; intros from done m; simpl.
  - intros Hle. exists from, []. auto.
  - intros (Ha & Hb & Hs). pose proof (successive_le _ _ _ Hs) as Hn.
    rewrite slice_in_range by lia. rewrite assign_next.
    destruct (IH b (done ++ [substring from (a - from) text]) m Hs)
      as (laststart & front & R & E & L).
    rewrite length_app, Nat.add_1_r, <- app_assoc in R. simpl in R.
    exists laststart, (substring from (a - from) text :: front).
    rewrite R, E, <- app_assoc. auto.
Qed.

(** [splitEx] computes what the spec words. *)
Lemma splitEx_refines text reg :
  successive 0 (FindAllStringIndex reg text) (String.length text) ->
  splitEx text reg = Some (substrings_between text 0 (FindAllStringIndex reg text)).
Proof.
  intros Hs. unfold splitEx.
  destruct (splitEx_range_fills text _ 0 [] 1 Hs) as (laststart & front & R & E & L).
  simpl in R. rewrite R, E. rewrite slice_in_range by lia.
  assert (Hlen : length front = length (FindAllStringIndex reg text)).
  { pose proof (substrings_between_length text (FindAllStringIndex reg text) 0) as Hl.
    rewrite E, length_app in Hl. simpl in Hl. lia. }
  rewrite <- Hlen. apply assign_next.
Qed.

Lemma interleave_substrings_between text indexes : forall from,
  successive from indexes (String.length text) ->
  interleave (substrings_between text from indexes) (separators text indexes)
  = substring from (String.length text - from) text.
Proof.
  induction indexes as [| [a b] indexes IH]; intros from; simpl.
  - intros _. apply append_empty_r.
  - intros (Ha & Hb & Hs). pose proof (successive_le _ _ _ Hs) as Hn.
    rewrite (IH b Hs). rewrite (substring_split text a b) by lia.
    now rewrite substring_split by lia.
Qed.

Lemma substrings_between_last text a b indexes : forall from,
  exists front,
    substrings_between text from (indexes ++ [(a, b)])
    = front ++ [substring b (String.length text - b) text] /\
    length front = length indexes + 1.
Proof.
  induction indexes as [| el indexes IH]; intros from; simpl.
  - exists [substring from (a - from) text]. auto.
  - destruct (IH (snd el)) as (front & -> & L).
    exists (substring from (fst el - from) text :: front). simpl. auto.
Qed.

(** C10.  For every text and every separator whose matches come left to
    right without overlapping inside the text (as [regexp] gives them),
    [splitEx] returns, without a panic, the substrings between the matches
    in order: one more segment than there are matches, and the segments
    with the matched separators put back between them are the text. *)
Theorem splitEx_segments_rebuild_the_text text reg :
  successive 0 (FindAllStringIndex reg text) (String.length text) ->
  exists segments,
    splitEx text reg = Some segments /\
    segments = substrings_between text 0 (FindAllStringIndex reg text) /\
    length segments = length (FindAllStringIndex reg text) + 1 /\
    interleave segments (separators text (FindAllStringIndex reg text)) = text.
Proof.
  intros Hs. eexists. split; [now apply splitEx_refines |]. split; [reflexivity |].
  split; [apply substrings_between_length |].
  rewrite interleave_substrings_between by assumption.
  rewrite Nat.sub_0_r. apply substring_whole.
Qed.

Lemma splitEx_rebuild_witness :
  successive 0 (FindAllStringIndex reScriptSeparator A_GO_B_GO_C)
    (String.length A_GO_B_GO_C) /\
  exists segments,
    splitEx A_GO_B_GO_C reScriptSeparator = Some segments /\
    segments = substrings_between A_GO_B_GO_C 0
                 (FindAllStringIndex reScriptSeparator A_GO_B_GO_C) /\
    length segments = length (FindAllStringIndex reScriptSeparator A_GO_B_GO_C) + 1 /\
    interleave segments
      (separators A_GO_B_GO_C (FindAllStringIndex reScriptSeparator A_GO_B_GO_C))
    = A_GO_B_GO_C.
Proof.
  assert (Hs : successive 0 (FindAllStringIndex reScriptSeparator A_GO_B_GO_C)
                 (String.length A_GO_B_GO_C)) by (simpl; lia).
  split; [exact Hs |].
  apply (splitEx_segments_rebuild_the_text A_GO_B_GO_C reScriptSeparator Hs).
Defined.

(** C8.  Split on [GO] standing alone on its line, the five-line script
    gives the three statements [A;] + line feed, line feed + [B;] + line
    feed, line feed + [C;], in this order (and so it does for any separator
    that matches the two [GO] of the script); a text in which the
    separator has no match comes back whole, as the one statement; and the
    segment before the first match and the segment after the last match
    are always there, the empty string when the match is at the very
    beginning or the very end of the text. *)
Theorem splitEx_on_GO_lines :
  splitEx A_GO_B_GO_C reScriptSeparator
  = Some [String.append "A;" (String LF "");
          String LF (String.append "B;" (String LF ""));
          String LF "C;"] /\
  (forall reg,
     FindAllStringIndex reg A_GO_B_GO_C = [(3, 5); (9, 11)] ->
     splitEx A_GO_B_GO_C reg
     = Some [String.append "A;" (String LF "");
             String LF (String.append "B;" (String LF ""));
             String LF "C;"]) /\
  (forall text reg,
     FindAllStringIndex reg text = [] -> splitEx text reg = Some [text]) /\
  (forall text reg a b rest,
     FindAllStringIndex reg text = (a, b) :: rest ->
     successive 0 ((a, b) :: rest) (String.length text) ->
     exists others,
       splitEx text reg = Some (substring 0 a text :: others) /\
       length others = length rest + 1 /\
       (a = 0 -> substring 0 a text = "")) /\
  (forall text reg front a b,
     FindAllStringIndex reg text = front ++ [(a, b)] ->
     successive 0 (front ++ [(a, b)]) (String.length text) ->
     exists others,
       splitEx text reg = Some (others ++ [substring b (String.length text - b) text]) /\
       length others = length front + 1 /\
       (b = String.length text -> substring b (String.length text - b) text = "")) /\
  splitEx "GO" reScriptSeparator = Some [""; ""].
Proof.
  split; [reflexivity |].
  split; [intros reg E; unfold splitEx; rewrite E; reflexivity |].
  split.
  { intros text reg E. unfold splitEx. rewrite E. simpl.
    unfold slice. simpl. rewrite Nat.leb_refl, Nat.sub_0_r, substring_whole.
    reflexivity. }
  split.
  { intros text reg a b rest E Hs. rewrite splitEx_refines by (now rewrite E).
    rewrite E. simpl. rewrite Nat.sub_0_r. eexists. split; [reflexivity |].
    split; [apply substrings_between_length |].
    intros ->. apply substring_none. }
  split; [| reflexivity].
  intros text reg front a b E Hs. rewrite splitEx_refines by (now rewrite E).
  rewrite E. destruct (substrings_between_last text a b front 0) as (others & -> & L).
  exists others. split; [reflexivity |]. split; [exact L |].
  intros ->. rewrite Nat.sub_diag. apply substring_none.
Qed.

Lemma splitEx_on_GO_lines_witness :
  FindAllStringIndex reScriptSeparator A_GO_B_GO_C = [(3, 5); (9, 11)] /\
  FindAllStringIndex reScriptSeparator "select 1" = [] /\
  splitEx "select 1" reScriptSeparator = Some ["select 1"] /\
  splitEx A_GO_B_GO_C reScriptSeparator
  = Some [String.append "A;" (String LF "");
          String LF (String.append "B;" (String LF ""));
          String LF "C;"].
Proof.
  pose proof splitEx_on_GO_lines as (_ & Script & Whole & _).
  split; [reflexivity |]. split; [reflexivity |].
  split; [apply (Whole "select 1" reScriptSeparator); reflexivity |].
  apply (Script reScriptSeparator). reflexivity.
Defined.

(** * More on the transaction wrapper *)

Import Watchdog.

Section TxScopes.

Variable Strict : bool.
Variable driver : sqlxTx -> realCall -> option error.

(** X1.  A nested scope that calls [Commit()] before its deferred
    [AutoRollback()] returns no error, makes no call on the real transaction
    and leaves the [Tx] exactly as it was before [Begin()], whatever the
    state of the outer scope.  A nested scope left without [Commit()] makes
    the real rollback call: accepted, the flag is set and the outer state
    and stack are back; refused, the error is returned and the [Tx] is as
    before [Begin()] (in strict mode the process ends). *)
Theorem nested_scope_round_trip tx h :
  IsRollbacked tx = false ->
  run Strict driver [Begin; Commit; AutoRollback] tx h = ([None; None; None], Some tx, h) /\
  run Strict driver [Begin; AutoRollback] tx h
  = match driver h realRollback with
    | None =>
        ([None; None], Some (with_IsRollbacked true tx), h ++ [(realRollback, None)])
    | Some e =>
        if Strict then ([None], None, h ++ [(realRollback, Some e)])
        else ([None;
               Some (Logger_Error "transaction.AutoRollback.rollback_error" [ArgError e])],
              Some tx, h ++ [(realRollback, Some e)])
    end.
Proof.
  intros F. destruct tx as [b s l]. simpl in F. subst b.
  cbn [TxModel.run]. rewrite step_Begin. cbn [IsRollbacked].
  unfold pushState, with_state, with_stateStack, with_IsRollbacked.
  cbn [IsRollbacked state stateStack step]. rewrite Commit_nested.
  unfold Tx_AutoRollback, sqlx_call, with_state, with_IsRollbacked.
  cbn [IsRollbacked state stateStack txState_eqb orb].
  split; [now rewrite popState_snoc |].
  destruct (driver h realRollback) as [e |]; [destruct Strict |];
    rewrite ?popState_snoc; reflexivity.
Qed.

(** ** The watchdog *)

Lemma not_closed_flagged tx : IsRollbacked tx = true -> not_closed tx = false.
Proof. intros F. unfold not_closed. now rewrite F. Qed.

Lemma outermost_scope_closed f h errs tx' h' :
  finalizer f ->
  run Strict driver (f ++ [AutoRollback]) WrapSqlxTx h = (errs, Some tx', h') ->
  not_closed tx' = false.
Proof.
  intros Hf.
  destruct Hf; cbn [app TxModel.run step];
    unfold Tx_Commit, Tx_Rollback, Tx_AutoRollback, sqlx_call, WrapSqlxTx;
    cbn [IsRollbacked state stateStack txState_eqb orb length Nat.eqb
         with_state with_IsRollbacked];
    repeat match goal with
           | |- context [driver ?a ?b] =>
               destruct (driver a b);
               cbn [IsRollbacked state stateStack txState_eqb orb with_state
                    with_IsRollbacked]
           | |- context [if Strict then _ else _] => destruct Strict
           end;
    intros E; inversion E; subst; reflexivity.
Qed.

(** X2.  When the calls on the [Tx] of [WrapSqlxTx] follow the scope
    discipline and the process lives to the end of them, the watchdog finds
    nothing to report: the [Tx] is rolled back, or its state is no longer
    pending; this for every driver, refusals included. *)
Theorem watchdog_silent_after_unit_of_work cs errs tx' h :
  unit_of_work cs ->
  run Strict driver cs WrapSqlxTx [] = (errs, Some tx', h) ->
  not_closed tx' = false.
Proof.
  intros (inner & f & Hin & Hf & ->). rewrite run_app.
  destruct (leaves_scopes Strict driver inner Hin WrapSqlxTx eq_refl [])
    as (errs1 & end1 & hx1 & R1 & C1).
  rewrite R1. destruct end1 as [tx1 |]; [| discriminate].
  destruct C1 as [[-> _] | [F1 _]].
  - destruct (run Strict driver (f ++ [AutoRollback]) WrapSqlxTx ([] ++ hx1))
      as [[errs2 end2] h2] eqn:R2.
    intros E. inversion E; subst.
    eapply outermost_scope_closed; eassumption.
  - destruct (run_after_rollback Strict driver (f ++ [AutoRollback]) tx1 ([] ++ hx1) F1)
      as (tx2 & -> & F2).
    intros E. inversion E; subst. now apply not_closed_flagged.
Qed.

(** X3.  The watchdog can be silenced with nothing committed: after [n >= 1]
    nested [Begin()] on a pending [Tx], one [Commit()] returns no error and
    makes no call on the real transaction, yet the state it leaves is
    committed, which the watchdog takes for closed. *)
Theorem nested_Commit_silences_watchdog n tx h :
  n >= 1 -> IsRollbacked tx = false -> state tx = txPending ->
  not_closed tx = true /\
  exists tx',
    run Strict driver (repeat Begin n ++ [Commit]) tx h
    = (repeat None n ++ [None], Some tx', h) /\
    not_closed tx' = false /\ IsRollbacked tx' = false /\
    length (stateStack tx') = length (stateStack tx) + n.
Proof.
  intros Hn F P. split; [unfold not_closed; now rewrite F, P |].
  rewrite run_app, run_Begins, iter_pushState, F by assumption.
  destruct n as [| n]; [lia |].
  change (repeat txPending (S n)) with (txPending :: repeat txPending n).
  rewrite repeat_cons, app_assoc. cbn [TxModel.run step]. rewrite Commit_nested.
  eexists. split; [reflexivity |]. split; [reflexivity |]. split; [reflexivity |].
  cbn [stateStack]. rewrite !length_app, repeat_length. simpl. lia.
Qed.

(** ** After the outermost [Commit] *)

(** X4.  Once the outermost scope is marked committed (flag unset, empty
    stack), [Commit()], [Rollback()] and [AutoRollback()] can be called any
    number of times in any order: [Commit()] and [Rollback()] fail with their
    already-committed errors, [AutoRollback()] returns no error, the [Tx]
    does not change and the real transaction is not called. *)
Theorem committed_outermost_scope_is_final cs : forall tx h,
  Forall (fun c => closing c = true) cs ->
  IsRollbacked tx = false -> state tx = txCommitted -> stateStack tx = [] ->
  run Strict driver cs tx h = (map after_commit cs, Some tx, h).
Proof.
  induction cs as [| c cs IH]; intros tx h Hcs F C E; [reflexivity |].
  inversion Hcs as [| c' cs' Hc Hcs']; subst.
  assert (S1 : step Strict driver c tx h = Return (after_commit c) tx h).
  { destruct c; try discriminate; simpl;
      unfold Tx_Commit, Tx_Rollback, Tx_AutoRollback; rewrite F, C; simpl;
      rewrite ?popState_empty by assumption; reflexivity. }
  cbn [TxModel.run map]. rewrite S1, IH by assumption. reflexivity.
Qed.

(** ** The errored state *)

(** X5.  No method tests for the errored state: on an errored [Tx] every
    call returns the same error (or none), makes the same call on the real
    transaction and leaves the same flag as on the same [Tx] in pending
    state; so a commit or rollback that the driver refused can be tried
    again. *)
Theorem errored_answers_as_pending c tx h :
  match step Strict driver c (with_state txErred tx) h,
        step Strict driver c (with_state txPending tx) h with
  | Return e1 t1 h1, Return e2 t2 h2 =>
      e1 = e2 /\ h1 = h2 /\ IsRollbacked t1 = IsRollbacked t2
      /\ length (stateStack t1) = length (stateStack t2)
  | Exit h1, Exit h2 => h1 = h2
  | _, _ => False
  end.
Proof.
  destruct tx as [b s l].
  destruct c; simpl;
    unfold Tx_Begin, Tx_Commit, Tx_Rollback, Tx_AutoCommit, Tx_AutoRollback, sqlx_call,
           with_state, with_IsRollbacked;
    cbn [IsRollbacked state stateStack txState_eqb orb];
    repeat match goal with
           | |- context [if ?x then _ else _] => destruct x
           | |- context [match driver ?a ?b with Some _ => _ | None => _ end] =>
               destruct (driver a b)
           end;
    rewrite ?popState_IsRollbacked, ?popState_length, ?pushState_length;
    repeat split; reflexivity.
Qed.

(** ** The state [txRollbacked] *)

Lemma popState_rollbacked_is_flagged tx :
  rollbacked_is_flagged tx -> rollbacked_is_flagged (popState tx).
Proof.
  destruct tx as [b s l]. intros [I A]. simpl in *.
  destruct l as [| x l _] using rev_ind; [split; assumption |].
  rewrite popState_snoc. apply Forall_app in A as [A X].
  inversion X; subst. split; simpl; [intros; contradiction | assumption].
Qed.

Lemma step_rollbacked_is_flagged c tx h err tx' h' :
  rollbacked_is_flagged tx ->
  step Strict driver c tx h = Return err tx' h' ->
  rollbacked_is_flagged tx' /\
  err <> Some (Logger_Error "Transaction has already been rollbacked" []).
Proof.
  intros I.
  assert (Is : forall s, rollbacked_is_flagged (with_state s tx) \/ s = txRollbacked).
  { intros s. destruct s; auto; left; destruct I as [_ A]; split; try assumption;
      simpl; discriminate. }
  assert (Ir : rollbacked_is_flagged (with_IsRollbacked true (with_state txRollbacked tx))).
  { destruct I as [_ A]. split; [reflexivity | assumption]. }
  destruct (Is txErred) as [Ie | ?]; [| discriminate].
  destruct (Is txCommitted) as [Ic | ?]; [| discriminate].
  destruct c; simpl;
    unfold Tx_Begin, Tx_Commit, Tx_Rollback, Tx_AutoCommit, Tx_AutoRollback, sqlx_call.
  - destruct (IsRollbacked tx) eqn:F; intros E; inversion E; subst;
      (split; [| discriminate]); [assumption |].
    destruct I as [I A]. split; simpl; [discriminate |].
    apply Forall_app; split; [assumption |]. constructor; [| constructor].
    intros S. apply I in S. congruence.
  - destruct (IsRollbacked tx) eqn:F;
      [intros E; inversion E; subst; split; [assumption | discriminate] |].
    destruct (txState_eqb (state tx) txCommitted);
      [intros E; inversion E; subst; split; [assumption | discriminate] |].
    destruct (txState_eqb (state tx) txRollbacked) eqn:S.
    { destruct I as [I _]. destruct (state tx); try discriminate.
      specialize (I eq_refl). congruence. }
    destruct (length (stateStack tx) =? 0); [destruct (driver h realCommit) |];
      intros E; inversion E; subst; split; try assumption; discriminate.
  - destruct (IsRollbacked tx);
      [intros E; inversion E; subst; split; [assumption | discriminate] |].
    destruct (txState_eqb (state tx) txCommitted);
      [intros E; inversion E; subst; split; [assumption | discriminate] |].
    destruct (driver h realRollback);
      intros E; inversion E; subst; split; try assumption; discriminate.
  - destruct (txState_eqb (state tx) txRollbacked || IsRollbacked tx);
      [intros E; inversion E; subst; split;
         [now apply popState_rollbacked_is_flagged | discriminate] |].
    destruct (driver h realCommit); [destruct Strict |];
      intros E; inversion E; subst; split;
      try (now apply popState_rollbacked_is_flagged); discriminate.
  - destruct (IsRollbacked tx || txState_eqb (state tx) txCommitted);
      [intros E; inversion E; subst; split;
         [now apply popState_rollbacked_is_flagged | discriminate] |].
    destruct (driver h realRollback); [destruct Strict |];
      intros E; inversion E; subst; split;
      try (now apply popState_rollbacked_is_flagged); discriminate.
Qed.

(** X6.  On a [Tx] in which the state [txRollbacked] does not show without
    the rollback flag and is not saved on the state stack (the [Tx] of
    [WrapSqlxTx] is one), this stays so whatever the calls and the driver;
    and no call ever returns the error "Transaction has already been
    rollbacked" of [Commit()], whose test on the state comes after the test
    on the flag. *)
Theorem rollbacked_state_always_flagged cs : forall tx h errs end_tx h',
  rollbacked_is_flagged tx ->
  run Strict driver cs tx h = (errs, end_tx, h') ->
  (forall tx', end_tx = Some tx' -> rollbacked_is_flagged tx') /\
  Forall (fun err => err <> Some (Logger_Error "Transaction has already been rollbacked" []))
         errs.
Proof.
  induction cs as [| c cs IH]; intros tx h errs end_tx h' I R; simpl in R.
  - inversion R; subst. split; [intros tx' E; now inversion E; subst | constructor].
  - destruct (step Strict driver c tx h) as [err tx1 h1 | h1] eqn:S1.
    + destruct (step_rollbacked_is_flagged _ _ _ _ _ _ I S1) as [I1 N1].
      destruct (run Strict driver cs tx1 h1) as [[errs1 end1] h2] eqn:R1.
      inversion R; subst. destruct (IH _ _ _ _ _ I1 R1) as [K1 K2].
      split; [assumption | now constructor].
    + inversion R; subst. split; [discriminate | constructor].
Qed.

End TxScopes.

Lemma nested_scope_round_trip_witness :
  IsRollbacked (mkTx false txCommitted []) = false /\
  run false done_after_first [Begin; Commit; AutoRollback] (mkTx false txCommitted [])
      [(realCommit, None)]
  = ([None; None; None], Some (mkTx false txCommitted []), [(realCommit, None)]).
Proof.
  split; [reflexivity |].
  apply (proj1 (nested_scope_round_trip false done_after_first (mkTx false txCommitted [])
                  [(realCommit, None)] eq_refl)).
Defined.

Lemma watchdog_silent_witness :
  unit_of_work [Begin; Rollback; AutoRollback; Commit; AutoRollback] /\
  run false refusing [Begin; Rollback; AutoRollback; Commit; AutoRollback] WrapSqlxTx []
  = ([None;
      Some (Logger_Error "Unable to rollback"
              [ArgString "err"; ArgError (DriverError "driver: bad connection")]);
      Some (Logger_Error "transaction.AutoRollback.rollback_error"
              [ArgError (DriverError "driver: bad connection")]);
      Some (Logger_Error "commit.error" [ArgError (DriverError "driver: bad connection")]);
      Some (Logger_Error "transaction.AutoRollback.rollback_error"
              [ArgError (DriverError "driver: bad connection")])],
     Some (mkTx false txErred []),
     [(realRollback, Some (DriverError "driver: bad connection"));
      (realRollback, Some (DriverError "driver: bad connection"));
      (realCommit, Some (DriverError "driver: bad connection"));
      (realRollback, Some (DriverError "driver: bad connection"))]) /\
  not_closed (mkTx false txErred []) = false.
Proof.
  assert (U : unit_of_work [Begin; Rollback; AutoRollback; Commit; AutoRollback]).
  { exists [Begin; Rollback; AutoRollback], [Commit].
    split; [apply (scopes_cons [] [Rollback] []); constructor |].
    split; [constructor | reflexivity]. }
  split; [exact U |]. split; [reflexivity |].
  eapply (watchdog_silent_after_unit_of_work false refusing _ _ _ _ U). reflexivity.
Defined.

Lemma nested_Commit_silences_watchdog_witness :
  3 >= 1 /\ not_closed WrapSqlxTx = true /\
  exists tx',
    run true accepting (repeat Begin 3 ++ [Commit]) WrapSqlxTx []
    = (repeat None 3 ++ [None], Some tx', []) /\
    not_closed tx' = false.
Proof.
  split; [lia |].
  destruct (nested_Commit_silences_watchdog true accepting 3 WrapSqlxTx [])
    as (Open & tx' & R & Closed & _); [lia | reflexivity | reflexivity |].
  split; [exact Open |]. exists tx'. split; assumption.
Defined.

Lemma committed_outermost_scope_is_final_witness :
  Forall (fun c => closing c = true) [Commit; Rollback; AutoRollback; Commit] /\
  run true refusing [Commit; Rollback; AutoRollback; Commit] (mkTx false txCommitted [])
      [(realCommit, None)]
  = ([Some (Logger_Error "Transaction has already been commited" []);
      Some (Logger_Error "Cannot rollback, transaction has already been commited" []);
      None;
      Some (Logger_Error "Transaction has already been commited" [])],
     Some (mkTx false txCommitted []), [(realCommit, None)]).
Proof.
  assert (A : Forall (fun c => closing c = true) [Commit; Rollback; AutoRollback; Commit])
    by (repeat constructor).
  split; [exact A |].
  apply (committed_outermost_scope_is_final true refusing
           [Commit; Rollback; AutoRollback; Commit] (mkTx false txCommitted [])
           [(realCommit, None)] A); reflexivity.
Defined.

Lemma rollbacked_state_always_flagged_witness :
  rollbacked_is_flagged WrapSqlxTx /\
  run false accepting [Begin; Rollback; AutoRollback; Commit] WrapSqlxTx []
  = ([None; None; None; Some (Logger_Error "Cannot commit" [ArgError ErrTxRollbacked])],
     Some (mkTx true txPending []), [(realRollback, None)]) /\
  rollbacked_is_flagged (mkTx true txPending []).
Proof.
  assert (I : rollbacked_is_flagged WrapSqlxTx) by (split; [discriminate | constructor]).
  split; [exact I |]. split; [reflexivity |].
  apply (proj1 (rollbacked_state_always_flagged false accepting
                  [Begin; Rollback; AutoRollback; Commit] WrapSqlxTx [] _ _ _ I eq_refl)).
  reflexivity.
Defined.

(** * Properties of [Exec], [ExecBuilder] and [ExecScript] *)

Section ExecFacts.

Import Statements.

Variable database : Type.
Variable runner_Exec :
  database -> string -> list string -> database * (error + sql_Result).

Lemma call_Exec_either cmd args q :
  (if length args =? 0 then call_Exec database runner_Exec cmd [] q
   else call_Exec database runner_Exec cmd args q)
  = call_Exec database runner_Exec cmd args q.
Proof. now destruct args. Qed.

(** X7.  [Exec] hands the statement and its arguments to the runner exactly
    once, and returns either a result or an error, never both and never
    neither: the result, with the driver's count, when the driver accepts
    the statement and can tell the rows affected; the error of
    [logSQLError] otherwise, also when the statement has run and only the
    count is missing. *)
Theorem Exec_returns_result_or_error cmd args q :
  let '(result, err, q') := Exec database runner_Exec cmd args q in
  executed q' = executed q ++ [(cmd, args)] /\
  runner q' = fst (runner_Exec (runner q) cmd args) /\
  (result = None <-> err <> None) /\
  (forall n, result = Some (mkDatResult n) <->
             exists r, snd (runner_Exec (runner q) cmd args) = inr r
                       /\ RowsAffected r = inr n) /\
  (forall e, err = Some e ->
             exists cause, e = logSQLError cause "Exec" cmd args /\
               (snd (runner_Exec (runner q) cmd args) = inl cause \/
                exists r, snd (runner_Exec (runner q) cmd args) = inr r
                          /\ RowsAffected r = inl cause)).
Proof.
  unfold Exec. rewrite call_Exec_either. unfold call_Exec.
  destruct (runner_Exec (runner q) cmd args) as [db [e | [[e | n]]]]; simpl.
  - repeat split; try discriminate; try congruence.
    + intros (r & E & _). discriminate.
    + intros e' E. inversion E; subst. eauto.
  - repeat split; try discriminate; try congruence.
    + intros (r & E & R). inversion E; subst. discriminate.
    + intros e' E. inversion E; subst. eexists. split; [reflexivity |]. right. eauto.
  - repeat split; try discriminate; try congruence.
    + intros E. inversion E; subst. eauto.
    + intros (r & E & R). inversion E; subst. simpl in R. congruence.
Qed.

(** X8.  [ExecBuilder] reaches the runner only if the builder interpolates:
    the error of [Interpolate] is returned as it is and nothing is
    executed.  Otherwise it hands the interpolated statement to the runner
    exactly once, as [Exec] would, and leaves the same [Queryable]; it
    fails exactly when the driver refuses the statement, so it returns no
    error whenever [Exec] returns none, and also when only the count of
    rows is missing. *)
Theorem ExecBuilder_runs_what_interpolates :
  (forall err q,
     ExecBuilder database runner_Exec (inl err) q = (Some (Unwrapped err), q)) /\
  (forall sql args q,
     let '(err, q') := ExecBuilder database runner_Exec (inr (sql, args)) q in
     let '(result, err_Exec, q_Exec) := Exec database runner_Exec sql args q in
     q' = q_Exec /\
     executed q' = executed q ++ [(sql, args)] /\
     (err_Exec = None -> err = None) /\
     (err <> None <-> exists cause,
         snd (runner_Exec (runner q) sql args) = inl cause /\
         err = Some (logSQLError cause "ExecBuilder" sql args))).
Proof.
  split; [reflexivity |]. intros sql args q.
  unfold ExecBuilder, Exec. rewrite call_Exec_either. unfold call_Exec.
  destruct (runner_Exec (runner q) sql args) as [db [e | [[e | n]]]]; simpl;
    repeat split; try discriminate; try congruence; eauto;
    intros (cause & E & _); discriminate.
Qed.

End ExecFacts.

Lemma Exec_returns_result_or_error_witness :
  exists result err q',
    Statements.Exec nat Statements.reporting_Exec "notify" ["ch"]
      (Statements.mkQueryable 0 []) = (result, err, q') /\
    Statements.executed q' = [("notify", ["ch"])] /\
    (result = None <-> err <> None) /\
    err = Some (Statements.logSQLError (DriverError "no RowsAffected available")
                  "Exec" "notify" ["ch"]).
Proof.
  pose proof (Exec_returns_result_or_error nat Statements.reporting_Exec "notify" ["ch"]
                (Statements.mkQueryable 0 [])) as H.
  destruct (Statements.Exec nat Statements.reporting_Exec "notify" ["ch"]
              (Statements.mkQueryable 0 [])) as [[result err] q'] eqn:E.
  destruct H as (X & _ & I & _ & _).
  exists result, err, q'. split; [reflexivity |]. split; [exact X |].
  split; [exact I |]. vm_compute in E. now inversion E.
Defined.

Lemma ExecBuilder_runs_what_interpolates_witness :
  Statements.ExecBuilder nat Statements.reporting_Exec (inl ErrTxRollbacked)
    (Statements.mkQueryable 0 [])
  = (Some (Statements.Unwrapped ErrTxRollbacked), Statements.mkQueryable 0 []) /\
  exists err q',
    Statements.ExecBuilder nat Statements.reporting_Exec (inr ("notify", ["ch"]))
      (Statements.mkQueryable 0 []) = (err, q') /\
    Statements.executed q' = [("notify", ["ch"])] /\
    q' = snd (Statements.Exec nat Statements.reporting_Exec "notify" ["ch"]
                (Statements.mkQueryable 0 [])).
Proof.
  pose proof (ExecBuilder_runs_what_interpolates nat Statements.reporting_Exec)
    as [Fails Runs].
  split; [apply Fails |].
  specialize (Runs "notify" ["ch"] (Statements.mkQueryable 0 [])).
  destruct (Statements.ExecBuilder nat Statements.reporting_Exec (inr ("notify", ["ch"]))
              (Statements.mkQueryable 0 [])) as [err q'].
  destruct (Statements.Exec nat Statements.reporting_Exec "notify" ["ch"]
              (Statements.mkQueryable 0 [])) as [[result err_Exec] q_Exec].
  destruct Runs as (Q & X & _).
  exists err, q'. split; [reflexivity |]. split; [exact X | exact Q].
Defined.

Section ExecScriptFacts.

Variable database : Type.
Variable runner_Exec : database -> string -> list string -> database * option error.
Variable reg : Regexp.

(** The statements of a script as [ExecScript] hands them over. *)
Lemma ExecScript_range_all_succeed args statements : forall q db',
  run_all database runner_Exec (map (fun sql => mkExpression sql args) statements) (runner q)
  = (repeat None (length statements), db') ->
  Statements.ExecScript_range database runner_Exec statements args q
  = (None, Gateway.mkQueryable db'
             (executed q ++ map (fun sql => mkExpression sql args) statements)).
Proof.
  induction statements as [| sql statements IH]; intros [db ex] db' R; simpl in *.
  - inversion R. now rewrite app_nil_r.
  - unfold Exec_cmd. simpl.
    destruct (runner_Exec db sql args) as [db1 err].
    destruct (run_all database runner_Exec
                (map (fun sql => mkExpression sql args) statements) db1)
      as [errs db2] eqn:R1.
    injection R as -> -> ->.
    rewrite (IH (Gateway.mkQueryable db1 (ex ++ [mkExpression sql args])) db').
    + simpl. now rewrite <- app_assoc.
    + simpl. now rewrite R1.
Qed.

Lemma ExecScript_range_first_failure args i : forall statements q sql e db_i db',
  run_all database runner_Exec
    (firstn i (map (fun sql => mkExpression sql args) statements)) (runner q)
  = (repeat None i, db_i) ->
  statements !! i = Some sql ->
  runner_Exec db_i sql args = (db', Some e) ->
  Statements.ExecScript_range database runner_Exec statements args q
  = (Some (Statements.errors_Wrap e (String.append "SQL: " sql)),
     Gateway.mkQueryable db'
       (executed q ++ firstn (S i) (map (fun sql => mkExpression sql args) statements))).
Proof.
  induction i as [| i IH]; intros statements [db ex] sql e db_i db' R L X;
    destruct statements as [| s statements]; try discriminate; simpl in *.
  - inversion L; subst. inversion R; subst. unfold Exec_cmd. simpl. now rewrite X.
  - unfold Exec_cmd. simpl.
    destruct (runner_Exec db s args) as [db1 err].
    destruct (run_all database runner_Exec
                (firstn i (map (fun sql => mkExpression sql args) statements)) db1)
      as [errs db2] eqn:R1.
    injection R as -> -> ->.
    rewrite (IH statements (Gateway.mkQueryable db1 (ex ++ [mkExpression s args]))
               sql e db_i db'); try assumption.
    simpl. now rewrite <- app_assoc.
Qed.

(** The loop always hands over a prefix of the statements, not empty when
    there is a statement, and all of them when it returns no error. *)
Lemma ExecScript_range_prefix args statements : forall q,
  exists sent rest,
    statements = sent ++ rest /\
    executed (snd (Statements.ExecScript_range database runner_Exec statements args q))
    = executed q ++ map (fun sql => mkExpression sql args) sent /\
    (statements <> [] -> sent <> []) /\
    (fst (Statements.ExecScript_range database runner_Exec statements args q) = None -> rest = []).
Proof.
  induction statements as [| sql statements IH]; intros [db ex]; simpl.
  - exists [], []. simpl. rewrite app_nil_r. repeat split; auto.
  - unfold Exec_cmd. simpl. destruct (runner_Exec db sql args) as [db1 [e |]]; simpl.
    + exists [sql], statements. repeat split; try discriminate.
    + destruct (IH (Gateway.mkQueryable db1 (ex ++ [mkExpression sql args])))
        as (sent & rest & -> & E & _ & N).
      exists (sql :: sent), rest. rewrite E. simpl. rewrite <- app_assoc.
      repeat split; try discriminate. assumption.
Qed.

(** X9.  On a script whose separator matches come left to right without
    overlapping, [ExecScript] does not panic and runs the substrings
    between the matches in order, each with the arguments of the script.
    When the statements before index [i] succeed and the one at [i] fails
    with [e], exactly the statements 0 to [i] have been handed to the runner
    and the error is [e] wrapped with "SQL: " and the text of the failing
    statement; when all succeed, all have been handed over and no error is
    returned. *)
Theorem ExecScript_stops_at_first_failure script args q :
  successive 0 (FindAllStringIndex reg script) (String.length script) ->
  (forall i sql e db_i db',
     run_all database runner_Exec
       (firstn i (map (fun sql => mkExpression sql args)
                    (substrings_between script 0 (FindAllStringIndex reg script))))
       (runner q)
     = (repeat None i, db_i) ->
     substrings_between script 0 (FindAllStringIndex reg script) !! i = Some sql ->
     runner_Exec db_i sql args = (db', Some e) ->
     Statements.ExecScript database runner_Exec reg script args q
     = Some (Some (Statements.errors_Wrap e (String.append "SQL: " sql)),
             Gateway.mkQueryable db'
               (executed q ++
                firstn (S i) (map (fun sql => mkExpression sql args)
                  (substrings_between script 0 (FindAllStringIndex reg script)))))) /\
  (forall db',
     run_all database runner_Exec
       (map (fun sql => mkExpression sql args)
          (substrings_between script 0 (FindAllStringIndex reg script)))
       (runner q)
     = (repeat None (length (FindAllStringIndex reg script) + 1), db') ->
     Statements.ExecScript database runner_Exec reg script args q
     = Some (None,
             Gateway.mkQueryable db'
               (executed q ++
                map (fun sql => mkExpression sql args)
                  (substrings_between script 0 (FindAllStringIndex reg script))))).
Proof.
  intros Hs. unfold Statements.ExecScript. rewrite splitEx_refines by assumption. split.
  - intros i sql e db_i db' R L X. f_equal.
    now apply ExecScript_range_first_failure with db_i.
  - intros db' R. f_equal. apply ExecScript_range_all_succeed.
    now rewrite substrings_between_length.
Qed.

(** X10.  On such a script [ExecScript] always hands at least one statement
    to the runner: a prefix, never empty, of the substrings between the
    matches, every one with the arguments of the script, and all of them
    when it returns no error.  A script with no match is handed over whole,
    as one statement, the empty script included; and when the last match
    ends the script, the statement after it is the empty one. *)
Theorem ExecScript_hands_over_a_prefix script args q :
  successive 0 (FindAllStringIndex reg script) (String.length script) ->
  exists err q' sent rest,
    Statements.ExecScript database runner_Exec reg script args q = Some (err, q') /\
    substrings_between script 0 (FindAllStringIndex reg script) = sent ++ rest /\
    executed q' = executed q ++ map (fun sql => mkExpression sql args) sent /\
    1 <= length sent /\
    (err = None -> rest = []) /\
    (FindAllStringIndex reg script = [] -> sent = [script] /\ rest = []) /\
    (forall front a,
       FindAllStringIndex reg script = front ++ [(a, String.length script)] ->
       err = None -> List.last sent script = EmptyString).
Proof.
  intros Hs. unfold Statements.ExecScript. rewrite splitEx_refines by assumption.
  destruct (ExecScript_range_prefix args
              (substrings_between script 0 (FindAllStringIndex reg script)) q)
    as (sent & rest & E & X & N & A).
  destruct (Statements.ExecScript_range database runner_Exec
              (substrings_between script 0 (FindAllStringIndex reg script)) args q)
    as [err q'] eqn:R. simpl in X, A.
  assert (Hne : sent <> []).
  { apply N. intros Z.
    pose proof (substrings_between_length script (FindAllStringIndex reg script) 0) as L.
    rewrite Z in L. simpl in L. lia. }
  exists err, q', sent, rest. split; [reflexivity |]. split; [exact E |].
  split; [exact X |]. split; [destruct sent; [contradiction | simpl; lia] |].
  split; [exact A |]. split.
  - intros Z. rewrite Z in E. simpl in E.
    rewrite Nat.sub_0_r, substring_whole in E.
    destruct sent as [| s sent]; [contradiction |].
    destruct sent; destruct rest; simpl in E; try discriminate.
    now inversion E.
  - intros front a Z Herr. specialize (A Herr). subst rest. rewrite app_nil_r in E.
    rewrite Z in E.
    destruct (substrings_between_last script a (String.length script) front 0)
      as (others & E' & _).
    rewrite E' in E. rewrite <- E, last_last, Nat.sub_diag. apply substring_none.
Qed.

End ExecScriptFacts.

Lemma ExecScript_witness :
  successive 0 (FindAllStringIndex reScriptSeparator "GO") (String.length "GO") /\
  Statements.ExecScript nat Statements.refusing_empty_Exec reScriptSeparator
    "GO" ["x"] (Gateway.mkQueryable 0 [])
  = Some (Some (Statements.errors_Wrap (DriverError "pq: empty statement")
                  (String.append "SQL: " "")),
          Gateway.mkQueryable 0 [mkExpression "" ["x"]]) /\
  Statements.ExecScript nat counting_Exec reScriptSeparator
    A_GO_B_GO_C [] (Gateway.mkQueryable 0 [])
  = Some (None,
          Gateway.mkQueryable 3
            (map (fun sql => mkExpression sql [])
               (substrings_between A_GO_B_GO_C 0
                  (FindAllStringIndex reScriptSeparator A_GO_B_GO_C)))).
Proof.
  assert (H1 : successive 0 (FindAllStringIndex reScriptSeparator "GO") (String.length "GO"))
    by (simpl; lia).
  assert (H2 : successive 0 (FindAllStringIndex reScriptSeparator A_GO_B_GO_C)
                 (String.length A_GO_B_GO_C)) by (simpl; lia).
  split; [exact H1 |]. split.
  - apply (proj1 (ExecScript_stops_at_first_failure nat Statements.refusing_empty_Exec
                    reScriptSeparator "GO" ["x"] (Gateway.mkQueryable 0 []) H1)
             0 "" (DriverError "pq: empty statement") 0 0); reflexivity.
  - apply (proj2 (ExecScript_stops_at_first_failure nat counting_Exec
                    reScriptSeparator A_GO_B_GO_C [] (Gateway.mkQueryable 0 []) H2) 3).
    reflexivity.
Defined.

Lemma ExecScript_prefix_witness :
  successive 0 (FindAllStringIndex reScriptSeparator "") (String.length "") /\
  exists err q' sent (rest : list string),
    Statements.ExecScript nat Statements.refusing_empty_Exec reScriptSeparator
      "" [] (Gateway.mkQueryable 0 []) = Some (err, q') /\
    executed q' = map (fun sql => mkExpression sql []) sent /\
    sent = [""] /\ rest = [].
Proof.
  assert (H1 : successive 0 (FindAllStringIndex reScriptSeparator "") (String.length ""))
    by (simpl; lia).
  split; [exact H1 |].
  destruct (ExecScript_hands_over_a_prefix nat Statements.refusing_empty_Exec
              reScriptSeparator "" [] (Gateway.mkQueryable 0 []) H1)
    as (err & q' & sent & rest & R & _ & X & _ & _ & W & _).
  destruct (W eq_refl) as [-> ->].
  exists err, q', [""], (@nil string). repeat split; assumption.
Defined.

(** * Properties of opening a connection *)

Section ConnectionFacts.

Import Connection.

(** X11.  [NewDB] with a driver name other than [postgres] panics, naming
    the driver, and asks nothing of the server.  With [postgres] the gate
    runs first and the version is asked only if the gate returns: a gate
    that stops leaves the version unasked.  The first connection of a
    process to a server that answers [on] asks the setting once and the
    version once, and holds the version the server gave; after that, and
    whenever the flag is off, a connection asks the version only and holds
    it, whatever its server would answer about the setting. *)
Theorem NewDB_asks_setting_once_and_version_each_time :
  (forall flag db driverName p probes,
     driverName <> "postgres" ->
     NewDB flag db driverName p probes
     = Panic (String.append "Unsupported driver: " driverName) p probes) /\
  (forall flag db p probes,
     (forall p', pgMustNotAllowEscapeSequence flag (setting db) p <> Returns p') ->
     NewDB flag db "postgres" p probes
     = Gate_stopped (pgMustNotAllowEscapeSequence flag (setting db) p) probes) /\
  (forall db v p probes,
     standardConformingStrings p = "" ->
     setting db = inr "on" -> server_version_num db = inr v ->
     NewDB true db "postgres" p probes
     = Connected (mkDB v) (mkProcess "on" (S (queries p))) (S probes)) /\
  (forall flag db v p probes,
     flag = false \/ standardConformingStrings p = "on" ->
     server_version_num db = inr v ->
     NewDB flag db "postgres" p probes = Connected (mkDB v) p (S probes) /\
     NewDBFromSqlx flag db p probes = Connected (mkDB v) p (S probes)).
Proof.
  split.
  { intros flag db driverName p probes N. unfold NewDB.
    apply String.eqb_neq in N. now rewrite N. }
  split.
  { intros flag db p probes N. unfold NewDB. simpl.
    destruct (pgMustNotAllowEscapeSequence flag (setting db) p) as [p' | |];
      [now contradiction (N p') | reflexivity | reflexivity]. }
  split.
  { intros db v p probes E S V. unfold NewDB, pgMustSetVersion. simpl.
    rewrite S, V. unfold pgMustNotAllowEscapeSequence. now rewrite E. }
  intros flag db v p probes H V.
  assert (G : pgMustNotAllowEscapeSequence flag (setting db) p = Returns p).
  { destruct H as [-> | E]; [reflexivity | now apply gate_cached_on]. }
  unfold NewDB, NewDBFromSqlx, pgMustSetVersion. simpl. now rewrite G, V.
Qed.

End ConnectionFacts.

Lemma NewDB_witness :
  "mysql" <> "postgres" /\
  Connection.NewDB true (Connection.mkServer (inr "on") (inr 90603%Z)) "mysql" started 0
  = Connection.Panic (String.append "Unsupported driver: " "mysql") started 0 /\
  Connection.NewDB true (Connection.mkServer (inr "on") (inr 90603%Z)) "postgres" started 0
  = Connection.Connected (Connection.mkDB 90603%Z) (mkProcess "on" 1) 1 /\
  Connection.NewDB true (Connection.mkServer (inr "off") (inr 150004%Z)) "postgres"
    (mkProcess "on" 1) 1
  = Connection.Connected (Connection.mkDB 150004%Z) (mkProcess "on" 1) 2 /\
  Connection.NewDB true (Connection.mkServer (inr "off") (inr 150004%Z)) "postgres" started 0
  = Connection.Gate_stopped (Fatal (mkProcess "off" 1)) 0.
Proof.
  pose proof NewDB_asks_setting_once_and_version_each_time as (Bad & Stop & First & Next).
  assert (N : "mysql" <> "postgres") by discriminate.
  split; [exact N |]. split; [now apply Bad |].
  split; [now apply First |].
  split; [apply Next; [now right | reflexivity] |].
  apply (Stop true (Connection.mkServer (inr "off") (inr 150004%Z)) started 0).
  intros p'. discriminate.
Defined.

(** * Properties of the struct mapping *)

Section FieldsFacts.

Import StructMapping.

Variable V : Type.
Variable FieldsByName : list string -> list (option V).

Lemma valuesFor_range_all_valid typeName columns vals : forall done m,
  Forall is_Some vals ->
  valuesFor_range V typeName columns vals (length done)
    (done ++ replicate (length vals + m) None)
  = Some (Values (done ++ vals ++ replicate m None)).
Proof.
  induction vals as [| val vals IH]; intros done m A; simpl; [reflexivity |].
  inversion A as [| ? ? [v ->] A']; subst.
  rewrite length_app. simpl.
  replace (length done <? length done + S (length (replicate (length vals + m) (@None V))))
    with true by (symmetry; apply Nat.ltb_lt; lia).
  rewrite insert_app_r_alt, Nat.sub_diag by lia. simpl.
  specialize (IH (done ++ [Some v]) m A').
  rewrite length_app, Nat.add_1_r, <- !app_assoc in IH. exact IH.
Qed.

Lemma valuesFor_range_first_invalid typeName columns column k : forall vals done m,
  vals !! k = Some None ->
  (forall j, j < k -> vals !! j <> Some None) ->
  columns !! (length done + k) = Some column ->
  valuesFor_range V typeName columns vals (length done)
    (done ++ replicate (length vals + m) None)
  = Some (Could_not_find_struct_tag typeName column).
Proof.
  induction k as [| k IH]; intros vals done m L B C;
    destruct vals as [| val vals]; try discriminate; simpl in *.
  - inversion L; subst. rewrite Nat.add_0_r in C. now rewrite C.
  - destruct val as [v |]; [| now contradiction (B 0 (Nat.lt_0_succ k))].
    rewrite length_app. simpl.
    replace (length done <? length done + S (length (replicate (length vals + m) (@None V))))
      with true by (symmetry; apply Nat.ltb_lt; lia).
    rewrite insert_app_r_alt, Nat.sub_diag by lia. simpl.
    specialize (IH vals (done ++ [Some v]) m L).
    rewrite length_app, Nat.add_1_r, <- !app_assoc in IH. apply IH.
    + intros j Hj. apply (B (S j)). lia.
    + now rewrite Nat.add_succ_comm.
Qed.

(** X12.  When the mapper gives one value for each column, [valuesFor] does
    not panic: if every column has its field it returns the values of the
    fields, one for each column and in the order of the columns; otherwise
    it returns no values but the error that names the type and the first
    column, from the left, that has no field. *)
Theorem valuesFor_names_first_missing_column typeName columns :
  length (FieldsByName columns) = length columns ->
  (Forall is_Some (FieldsByName columns) ->
   valuesFor V FieldsByName typeName columns = Some (Values (FieldsByName columns))) /\
  (forall i column,
     columns !! i = Some column ->
     FieldsByName columns !! i = Some None ->
     (forall j, j < i -> FieldsByName columns !! j <> Some None) ->
     valuesFor V FieldsByName typeName columns
     = Some (Could_not_find_struct_tag typeName column)).
Proof.
  intros L. unfold valuesFor. rewrite <- L. split.
  - intros A.
    pose proof (valuesFor_range_all_valid typeName columns (FieldsByName columns) [] 0 A)
      as R.
    simpl in R. rewrite Nat.add_0_r, app_nil_r in R. exact R.
  - intros i column C I B.
    pose proof (valuesFor_range_first_invalid typeName columns column i
                  (FieldsByName columns) [] 0 I B C) as R.
    simpl in R. rewrite Nat.add_0_r in R. exact R.
Qed.

End FieldsFacts.

Lemma valuesFor_witness :
  length (StructMapping.id_and_email ["email"; "id"]) = length ["email"; "id"] /\
  StructMapping.valuesFor nat StructMapping.id_and_email "User" ["email"; "id"]
  = Some (StructMapping.Values [Some 8; Some 7]) /\
  StructMapping.valuesFor nat StructMapping.id_and_email "User" ["id"; "name"; "age"]
  = Some (StructMapping.Could_not_find_struct_tag "User" "name").
Proof.
  split; [reflexivity |]. split.
  - apply (proj1 (valuesFor_names_first_missing_column nat StructMapping.id_and_email
                    "User" ["email"; "id"] eq_refl)).
    repeat constructor; eexists; reflexivity.
  - apply (proj2 (valuesFor_names_first_missing_column nat StructMapping.id_and_email
                    "User" ["id"; "name"; "age"] eq_refl) 1 "name");
      [reflexivity | reflexivity |].
    intros j Hj. destruct j; [discriminate | lia].
Defined.

Section ColumnsFacts.

Import StructMapping.

Variable SliceContains : list string -> string -> bool.




End ColumnsFacts.


